(** * groq-relay: the request-mediation pipeline of [src/worker.ts]

    The repository holds two workers.  The first mirrors the request path to
    the upstream API ([PathMirror]); the second exposes one fixed endpoint,
    [/chat], and reshapes its payload ([FixedEndpoint]).  Both are embedded
    here as functions over an explicit model of the runtime they are written
    against: ECMAScript strings and numbers, the Fetch [Headers], [Request]
    and [Response] classes, and [JSON.parse] / [JSON.stringify].

    Boundaries of the model.
    - A string is its sequence of UTF-16 code units.
    - A number is a binary64 value: [JSON.parse] rounds the decimal it reads
      to the nearest one (ties to even, overflow to an infinity), and
      [JSON.stringify] writes the shortest decimal that reads back, or
      [null] for an infinity.
    - A body is given by its text (what [text()] resolves to), or is a
      stream whose read fails; the octets on the wire are not represented.
    - Header names compare without regard to ASCII case.  [Headers.set] and
      [Headers.append] strip the HTTP white space around the value they are
      given and throw on a value that is not a legal header value.
    - The URL parser is a parameter of the path-mirroring handler, given by
      the references it accepts: the statements hold for every parser. *)

From Stdlib Require Import List NArith ZArith String Ascii Bool Lia.
Import ListNotations.

Set Implicit Arguments.
Set Warnings "-register-all".

(** ** ECMAScript strings *)

Module JS.

Definition jsstring := list N.

Definition ch (a : ascii) : N := N_of_ascii a.
Arguments ch a%_char.

Definition str (s : string) : jsstring := map N_of_ascii (list_ascii_of_string s).
Arguments str s%_string.

Fixpoint str_eqb (a b : jsstring) : bool :=
  match a, b with
  | [], [] => true
  | x :: a', y :: b' => N.eqb x y && str_eqb a' b'
  | _, _ => false
  end.

(** [ToBoolean] on a string: only the empty string is falsy. *)
Definition truthy_str (s : jsstring) : bool :=
  match s with [] => false | _ :: _ => true end.

(** WhiteSpace and LineTerminator code points, the set [String.prototype.trim]
    strips (all of them lie in the basic plane). *)
Definition is_js_space (c : N) : bool :=
  ((9 <=? c) && (c <=? 13) || (c =? 32) || (c =? 160) || (c =? 5760)
   || (8192 <=? c) && (c <=? 8202) || (c =? 8232) || (c =? 8233)
   || (c =? 8239) || (c =? 8287) || (c =? 12288) || (c =? 65279))%N.

Fixpoint trimStart (s : jsstring) : jsstring :=
  match s with
  | [] => []
  | c :: r => if is_js_space c then trimStart r else s
  end.

Definition trimEnd (s : jsstring) : jsstring := rev (trimStart (rev s)).

Definition trim (s : jsstring) : jsstring := trimEnd (trimStart s).

(** [s.split(sep)] for a separator of one code unit. *)
Fixpoint split (sep : N) (s : jsstring) : list jsstring :=
  match s with
  | [] => [[]]
  | c :: r =>
      if N.eqb c sep then [] :: split sep r
      else match split sep r with
           | h :: t => (c :: h) :: t
           | [] => [[c]]
           end
  end.

Fixpoint startsWith (s p : jsstring) {struct p} : bool :=
  match p, s with
  | [], _ => true
  | x :: p', y :: s' => N.eqb x y && startsWith s' p'
  | _ :: _, [] => false
  end.

(** [s.includes(needle)] on strings. *)
Fixpoint includes (s needle : jsstring) : bool :=
  startsWith s needle ||
  match s with
  | [] => false
  | _ :: r => includes r needle
  end.

(** [s.slice(0, n)] for a non-negative [n]. *)
Definition slice0 (n : nat) (s : jsstring) : jsstring := firstn n s.

(** [Array.prototype.includes] on an array of strings. *)
Definition arr_includes (l : list jsstring) (x : jsstring) : bool :=
  existsb (str_eqb x) l.

(** [Array.prototype.join]. *)
Fixpoint join (sep : jsstring) (l : list jsstring) : jsstring :=
  match l with
  | [] => []
  | [x] => x
  | x :: r => x ++ sep ++ join sep r
  end.

(** ASCII lower-casing, as header names are compared. *)
Definition lower (c : N) : N :=
  if ((65 <=? c) && (c <=? 90))%N then (c + 32)%N else c.

End JS.

(** ** JSON values, [JSON.parse] and [JSON.stringify] *)

Module Json.
Import JS.

Fixpoint uint_digits (u : Decimal.uint) : jsstring :=
  match u with
  | Decimal.Nil => []
  | Decimal.D0 r => 48%N :: uint_digits r
  | Decimal.D1 r => 49%N :: uint_digits r
  | Decimal.D2 r => 50%N :: uint_digits r
  | Decimal.D3 r => 51%N :: uint_digits r
  | Decimal.D4 r => 52%N :: uint_digits r
  | Decimal.D5 r => 53%N :: uint_digits r
  | Decimal.D6 r => 54%N :: uint_digits r
  | Decimal.D7 r => 55%N :: uint_digits r
  | Decimal.D8 r => 56%N :: uint_digits r
  | Decimal.D9 r => 57%N :: uint_digits r
  end.

(** The decimal digits of a natural number, without leading zeros. *)
Definition decimal_digits (n : N) : jsstring := uint_digits (N.to_uint n).

(** *** Numbers

    A Number other than NaN, which no JSON text denotes: the binary64 value
    [m * 2 ^ e] with [m] odd (so the pair is unique), a zero ([m = 0],
    [e = 0]), or an infinity; each with its sign. *)
Inductive Num : Set :=
| Finite (negative : bool) (m e : Z)
| Infinite (negative : bool).

Definition num_eqb (a b : Num) : bool :=
  match a, b with
  | Finite s m e, Finite s' m' e' => Bool.eqb s s' && Z.eqb m m' && Z.eqb e e'
  | Infinite s, Infinite s' => Bool.eqb s s'
  | _, _ => false
  end.

Section Rounding.
Local Open Scope Z_scope.

(** The integer nearest to [p / q], the even one of two that are equally
    near ([0 <= p], [0 < q]). *)
Definition round_ratio (p q : Z) : Z :=
  let f := p / q in
  let r := p mod q in
  if 2 * r <? q then f
  else if q <? 2 * r then f + 1
  else if Z.even f then f else f + 1.

(** The fraction [p / q] divided by [b ^ e]. *)
Definition scale (b p q e : Z) : Z * Z :=
  if 0 <=? e then (p, q * b ^ e) else (p * b ^ (- e), q).

(** [floor (log2 (p / q))], for [0 < p] and [0 < q]. *)
Definition binade (p q : Z) : Z :=
  let g := Z.log2 p - Z.log2 q in
  let (p', q') := scale 2 p q g in
  if q' <=? p' then g else g - 1.

(** [n * 2 ^ e] with every factor two of [n] moved to the exponent. *)
Definition odd_part (negative : bool) (n e : Z) : Num :=
  let tz := Z.log2 (Z.land n (- n)) in
  Finite negative (Z.shiftr n tz) (e + tz).

(** The binary64 value nearest to [p / q] ([0 <= p], [0 < q]): 53 bits of
    precision down to the exponent -1074, below which precision is lost
    (subnormal values); ties go to the even significand; what rounds to
    [2 ^ 1024] or more is an infinity. *)
Definition to_binary64 (negative : bool) (p q : Z) : Num :=
  if p =? 0 then Finite negative 0 0
  else
    let qe := Z.max (binade p q - 52) (-1074) in
    let (p', q') := scale 2 p q qe in
    let n := round_ratio p' q' in
    if n =? 0 then Finite negative 0 0
    else if 2 ^ (1024 - qe) <=? n then Infinite negative
    else odd_part negative n qe.

Definition digit_count (m : Z) : Z :=
  Z.of_nat (List.length (decimal_digits (Z.to_N m))).

(** The Number the decimal [m * 10 ^ e] denotes ([0 <= m]).  A decimal
    beyond the range of binary64 on either side is settled by its size,
    without computing the power of ten. *)
Definition of_decimal (negative : bool) (m e : Z) : Num :=
  if m =? 0 then Finite negative 0 0
  else
    let d := digit_count m in
    if 310 <? d + e then Infinite negative
    else if d + e <? -330 then Finite negative 0 0
    else let (p, q) := scale 10 m 1 (- e) in to_binary64 negative p q.

(** The Number of an integer. *)
Definition num_of_Z (z : Z) : Num :=
  if z <? 0 then to_binary64 true (- z) 1 else to_binary64 false z 1.

End Rounding.

(** Objects keep their own properties in the order [OrdinaryOwnPropertyKeys]
    lists them: array indices ascending, then the other keys as created. *)
Definition Obj (V : Type) := list (jsstring * V).

Inductive JSON : Type :=
| JNull
| JBool (b : bool)
| JNum (n : Num)
| JStr (s : jsstring)
| JArr (l : list JSON)
| JObj (o : Obj JSON).

Section Objects.
Variable V : Type.

Fixpoint obj_get (o : Obj V) (k : jsstring) : option V :=
  match o with
  | [] => None
  | (k', v) :: r => if str_eqb k k' then Some v else obj_get r k
  end.

Definition obj_has (o : Obj V) (k : jsstring) : bool :=
  match obj_get o k with Some _ => true | None => false end.

Fixpoint obj_replace (o : Obj V) (k : jsstring) (v : V) : Obj V :=
  match o with
  | [] => []
  | (k', v') :: r =>
      if str_eqb k k' then (k', v) :: r else (k', v') :: obj_replace r k v
  end.

Definition is_digit (c : N) : bool := ((48 <=? c) && (c <=? 57))%N.

Definition digits_value (s : jsstring) : N :=
  fold_left (fun acc c => (10 * acc + (c - 48))%N) s 0%N.

(** The array index a property key denotes, if it is one: a canonical decimal
    no greater than [2^32 - 2]. *)
Definition array_index (k : jsstring) : option N :=
  match k with
  | [] => None
  | c :: r =>
      if forallb is_digit k
         && (negb (N.eqb c 48) || match r with [] => true | _ => false end)
         && (List.length k <=? 10)%nat
         && (digits_value k <=? 4294967294)%N
      then Some (digits_value k) else None
  end.

Fixpoint obj_insert_index (i : N) (k : jsstring) (v : V) (o : Obj V) : Obj V :=
  match o with
  | [] => [(k, v)]
  | (k', v') :: r =>
      match array_index k' with
      | Some j => if (j <? i)%N then (k', v') :: obj_insert_index i k v r
                  else (k, v) :: o
      | None => (k, v) :: o
      end
  end.

(** [o[k] = v] on an ordinary object. *)
Definition obj_set (o : Obj V) (k : jsstring) (v : V) : Obj V :=
  if obj_has o k then obj_replace o k v
  else match array_index k with
       | Some i => obj_insert_index i k v o
       | None => o ++ [(k, v)]
       end.

End Objects.

(** *** Lexical analysis *)

Inductive token : Type :=
| TLBrace | TRBrace | TLBrack | TRBrack | TColon | TComma
| TString (s : jsstring)
| TNumber (n : Num)
| TTrue | TFalse | TNull.

Inductive numphase : Set :=
| NMinus | NZero | NInt | NDot | NFrac | NE | NESign | NExp.

Record numacc : Set :=
  { neg : bool; digs : Z; fracs : Z; eneg : bool; edigs : Z }.

Inductive lexst : Type :=
| LIdle
| LStr (acc : jsstring)
| LEsc (acc : jsstring)
| LHex (acc : jsstring) (todo : nat) (v : N)
| LLit (rest : jsstring) (t : token)
| LNum (ph : numphase) (a : numacc).

Definition is_json_ws (c : N) : bool :=
  ((c =? 9) || (c =? 10) || (c =? 13) || (c =? 32))%N.

Definition hex_value (c : N) : option N :=
  if is_digit c then Some (c - 48)%N
  else if ((97 <=? c) && (c <=? 102))%N then Some (c - 87)%N
  else if ((65 <=? c) && (c <=? 70))%N then Some (c - 55)%N
  else None.

Definition num_accepting (ph : numphase) : bool :=
  match ph with NZero | NInt | NFrac | NExp => true | _ => false end.

(** The token of a number read: [digs] holds the digits of the integer and
    of the fraction, [fracs] counts those of the fraction. *)
Definition num_token (a : numacc) : token :=
  let e := if eneg a then Z.opp (edigs a) else edigs a in
  TNumber (of_decimal (neg a) (digs a) (e - fracs a)).

Definition num0 (n : bool) (d : Z) : numacc :=
  {| neg := n; digs := d; fracs := 0; eneg := false; edigs := 0 |}.

(** A character met outside any token. *)
Definition lex_idle (c : N) : option (lexst * list token) :=
  if is_json_ws c then Some (LIdle, [])
  else if N.eqb c (ch "{") then Some (LIdle, [TLBrace])
  else if N.eqb c (ch "}") then Some (LIdle, [TRBrace])
  else if N.eqb c (ch "[") then Some (LIdle, [TLBrack])
  else if N.eqb c (ch "]") then Some (LIdle, [TRBrack])
  else if N.eqb c (ch ":") then Some (LIdle, [TColon])
  else if N.eqb c (ch ",") then Some (LIdle, [TComma])
  else if N.eqb c 34 then Some (LStr [], [])
  else if N.eqb c (ch "-") then Some (LNum NMinus (num0 true 0), [])
  else if N.eqb c (ch "0") then Some (LNum NZero (num0 false 0), [])
  else if is_digit c then Some (LNum NInt (num0 false (Z.of_N (c - 48))), [])
  else if N.eqb c (ch "t") then Some (LLit (str "rue") TTrue, [])
  else if N.eqb c (ch "f") then Some (LLit (str "alse") TFalse, [])
  else if N.eqb c (ch "n") then Some (LLit (str "ull") TNull, [])
  else None.

Definition lex_escape (acc : jsstring) (c : N) : option lexst :=
  if N.eqb c 34 || N.eqb c 92 || N.eqb c (ch "/") then Some (LStr (c :: acc))
  else if N.eqb c (ch "b") then Some (LStr (8%N :: acc))
  else if N.eqb c (ch "f") then Some (LStr (12%N :: acc))
  else if N.eqb c (ch "n") then Some (LStr (10%N :: acc))
  else if N.eqb c (ch "r") then Some (LStr (13%N :: acc))
  else if N.eqb c (ch "t") then Some (LStr (9%N :: acc))
  else if N.eqb c (ch "u") then Some (LHex acc 4 0%N)
  else None.

Definition lex_number (ph : numphase) (a : numacc) (c : N)
  : option (lexst * list token) :=
  let d := Z.of_N (c - 48) in
  if is_digit c then
    match ph with
    | NMinus => if N.eqb c 48 then Some (LNum NZero a, [])
                else Some (LNum NInt (num0 (neg a) d), [])
    | NZero => None
    | NInt => Some (LNum NInt (num0 (neg a) (10 * digs a + d)), [])
    | NDot | NFrac =>
        Some (LNum NFrac {| neg := neg a; digs := 10 * digs a + d;
                            fracs := fracs a + 1; eneg := false; edigs := 0 |}, [])
    | NE | NESign | NExp =>
        Some (LNum NExp {| neg := neg a; digs := digs a; fracs := fracs a;
                           eneg := eneg a; edigs := 10 * edigs a + d |}, [])
    end
  else if N.eqb c (ch ".") then
    match ph with
    | NZero | NInt => Some (LNum NDot a, [])
    | _ => None
    end
  else if N.eqb c (ch "e") || N.eqb c (ch "E") then
    match ph with
    | NZero | NInt | NFrac => Some (LNum NE a, [])
    | _ => None
    end
  else if N.eqb c (ch "+") || N.eqb c (ch "-") then
    match ph with
    | NE => Some (LNum NESign {| neg := neg a; digs := digs a; fracs := fracs a;
                                 eneg := N.eqb c (ch "-"); edigs := 0 |}, [])
    | _ => if num_accepting ph then
             match lex_idle c with
             | Some (st, ts) => Some (st, num_token a :: ts)
             | None => None
             end
           else None
    end
  else if num_accepting ph then
    match lex_idle c with
    | Some (st, ts) => Some (st, num_token a :: ts)
    | None => None
    end
  else None.

Definition lex_char (st : lexst) (c : N) : option (lexst * list token) :=
  match st with
  | LIdle => lex_idle c
  | LStr acc =>
      if N.eqb c 34 then Some (LIdle, [TString (rev acc)])
      else if N.eqb c 92 then Some (LEsc acc, [])
      else if (c <? 32)%N then None
      else Some (LStr (c :: acc), [])
  | LEsc acc =>
      match lex_escape acc c with
      | Some st' => Some (st', [])
      | None => None
      end
  | LHex acc todo v =>
      match hex_value c with
      | Some h =>
          let v' := (16 * v + h)%N in
          match todo with
          | S (S n) => Some (LHex acc (S n) v', [])
          | _ => Some (LStr (v' :: acc), [])
          end
      | None => None
      end
  | LLit rest t =>
      match rest with
      | [] => None
      | x :: r =>
          if N.eqb c x then
            match r with
            | [] => Some (LIdle, [t])
            | _ :: _ => Some (LLit r t, [])
            end
          else None
      end
  | LNum ph a => lex_number ph a c
  end.

Definition lex_end (st : lexst) : option (list token) :=
  match st with
  | LIdle => Some []
  | LNum ph a => if num_accepting ph then Some [num_token a] else None
  | _ => None
  end.

Fixpoint lex (st : lexst) (s : jsstring) : option (list token) :=
  match s with
  | [] => lex_end st
  | c :: r =>
      match lex_char st c with
      | Some (st', ts) =>
          match lex st' r with
          | Some ts' => Some (ts ++ ts')
          | None => None
          end
      | None => None
      end
  end.

(** *** Syntactic analysis

    A pushdown automaton over the tokens.  The stack holds the containers
    that are still open; [deliver] hands a finished value to the innermost
    one. *)

Inductive ctx : Type :=
| CArr (acc : list JSON)
| CObj (o : Obj JSON) (k : jsstring).

Inductive pstate : Type :=
| PValue (stk : list ctx)
| PValueOrEnd (stk : list ctx)
| PKeyOrEnd (stk : list ctx)
| PKey (o : Obj JSON) (stk : list ctx)
| PColon (o : Obj JSON) (k : jsstring) (stk : list ctx)
| PArrNext (acc : list JSON) (stk : list ctx)
| PObjNext (o : Obj JSON) (stk : list ctx)
| PDone (v : JSON).

Definition deliver (v : JSON) (stk : list ctx) : pstate :=
  match stk with
  | [] => PDone v
  | CArr acc :: stk' => PArrNext (v :: acc) stk'
  | CObj o k :: stk' => PObjNext (obj_set o k v) stk'
  end.

(** A token where a value may start; [stk] is the stack the value is
    delivered to. *)
Definition parse_value (t : token) (stk : list ctx) : option pstate :=
  match t with
  | TNull => Some (deliver JNull stk)
  | TTrue => Some (deliver (JBool true) stk)
  | TFalse => Some (deliver (JBool false) stk)
  | TNumber n => Some (deliver (JNum n) stk)
  | TString s => Some (deliver (JStr s) stk)
  | TLBrack => Some (PValueOrEnd stk)
  | TLBrace => Some (PKeyOrEnd stk)
  | _ => None
  end.

Definition parse_token (st : pstate) (t : token) : option pstate :=
  match st with
  | PValue stk => parse_value t stk
  | PValueOrEnd stk =>
      match t with
      | TRBrack => Some (deliver (JArr []) stk)
      | _ => parse_value t (CArr [] :: stk)
      end
  | PKeyOrEnd stk =>
      match t with
      | TRBrace => Some (deliver (JObj []) stk)
      | TString k => Some (PColon [] k stk)
      | _ => None
      end
  | PKey o stk =>
      match t with
      | TString k => Some (PColon o k stk)
      | _ => None
      end
  | PColon o k stk =>
      match t with
      | TColon => Some (PValue (CObj o k :: stk))
      | _ => None
      end
  | PArrNext acc stk =>
      match t with
      | TComma => Some (PValue (CArr acc :: stk))
      | TRBrack => Some (deliver (JArr (rev acc)) stk)
      | _ => None
      end
  | PObjNext o stk =>
      match t with
      | TComma => Some (PKey o stk)
      | TRBrace => Some (deliver (JObj o) stk)
      | _ => None
      end
  | PDone _ => None
  end.

Fixpoint parse_tokens (st : pstate) (ts : list token) : option JSON :=
  match ts with
  | [] => match st with PDone v => Some v | _ => None end
  | t :: r =>
      match parse_token st t with
      | Some st' => parse_tokens st' r
      | None => None
      end
  end.

(** [JSON.parse(text)]: [None] stands for the [SyntaxError] it throws. *)
Definition JSON_parse (text : jsstring) : option JSON :=
  match lex LIdle text with
  | Some ts => parse_tokens (PValue []) ts
  | None => None
  end.

(** *** Serialisation *)

Section Shortest.
Local Open Scope Z_scope.

(** The least [n] with [p / q < 10 ^ n] ([0 < p], [0 < q]): an estimate
    from the binary logarithm, settled by exact comparisons. *)
Definition magnitude (p q : Z) : Z :=
  let below j := let (p', q') := scale 10 p q j in p' <? q' in
  let est := binade p q * 30103 / 100000 in
  if below (est - 1) then est - 1
  else if below est then est
  else if below (est + 1) then est + 1
  else est + 2.

(** The integer [s] for which [s * 10 ^ (n - k)] reads back as
    [m * 2 ^ e] and is nearest to it, if there is one: [s] is one of the two
    integers around [m * 2 ^ e / 10 ^ (n - k)]. *)
Definition decimal_of_length (m e k n : Z) : option Z :=
  let (xp, xq) := scale 2 m 1 (- e) in
  let (p, q) := scale 10 xp xq (n - k) in
  let lo := p / q in
  let r := p mod q in
  let reads s := let (sp, sq) := scale 10 s 1 (k - n) in
                 num_eqb (to_binary64 false sp sq) (Finite false m e) in
  if r =? 0 then Some lo
  else
    match reads lo, reads (lo + 1) with
    | true, true =>
        if 2 * r <? q then Some lo
        else if q <? 2 * r then Some (lo + 1)
        else if Z.even lo then Some lo else Some (lo + 1)
    | true, false => Some lo
    | false, true => Some (lo + 1)
    | false, false => None
    end.

(** The decimal of [k] digits nearest to [m * 2 ^ e]. *)
Definition nearest_decimal (m e k n : Z) : Z :=
  let (xp, xq) := scale 2 m 1 (- e) in
  let (p, q) := scale 10 xp xq (n - k) in
  round_ratio p q.

(** The shortest decimal that reads back: the lengths are tried from [k]
    upwards, [fuel] of them; the next length takes the nearest decimal.
    Seventeen digits identify any binary64 value, so the search starts at
    one digit with [fuel = 16]. *)
Fixpoint shortest_decimal (fuel : nat) (m e k n : Z) : Z * Z :=
  match fuel with
  | O => (nearest_decimal m e k n, k)
  | S f =>
      match decimal_of_length m e k n with
      | Some s => (s, k)
      | None => shortest_decimal f m e (k + 1) n
      end
  end.

End Shortest.

Fixpoint strip_zeros (rev_digits : jsstring) : jsstring :=
  match rev_digits with
  | 48%N :: r => strip_zeros r
  | _ => rev_digits
  end.

(** [Number::toString] in radix ten: the digits [ds] of the shortest
    decimal that reads back, [k] of them, and the exponent [n] that puts the
    decimal point after [n] digits. *)
Definition Number_toString (x : Num) : jsstring :=
  match x with
  | Infinite false => str "Infinity"
  | Infinite true => str "-Infinity"
  | Finite negative m e =>
      if (m =? 0)%Z then str "0"
      else
        let (xp, xq) := scale 2 m 1 (- e) in
        let n0 := magnitude xp xq in
        let (s, k0) := shortest_decimal 16 m e 1 n0 in
        let all := decimal_digits (Z.to_N s) in
        let ds := rev (strip_zeros (rev all)) in
        let k := Z.of_nat (List.length ds) in
        let n := (n0 + (Z.of_nat (List.length all) - k0))%Z in
        let ex := (n - 1)%Z in
        let es := (if (ex <? 0)%Z then str "-" else str "+")
                  ++ decimal_digits (Z.abs_N ex) in
        (if negative then str "-" else []) ++
        if ((k <=? n) && (n <=? 21))%Z then
          ds ++ repeat (ch "0") (Z.to_nat (n - k))
        else if ((0 <? n) && (n <=? 21))%Z then
          firstn (Z.to_nat n) ds ++ str "." ++ skipn (Z.to_nat n) ds
        else if ((-6 <? n) && (n <=? 0))%Z then
          str "0." ++ repeat (ch "0") (Z.to_nat (- n)) ++ ds
        else
          match ds with
          | [d] => [d] ++ str "e" ++ es
          | d :: r => [d] ++ str "." ++ r ++ str "e" ++ es
          | [] => []
          end
  end.

Definition hex_digit (v : N) : N :=
  if (v <? 10)%N then (48 + v)%N else (87 + v)%N.

(** The escape [\uXXXX] of a code unit, in lower-case hexadecimal. *)
Definition unicode_escape (c : N) : jsstring :=
  [92%N; ch "u"; hex_digit (c / 4096 mod 16); hex_digit (c / 256 mod 16);
   hex_digit (c / 16 mod 16); hex_digit (c mod 16)]%N.

Definition is_high_surrogate (c : N) : bool := ((55296 <=? c) && (c <=? 56319))%N.
Definition is_low_surrogate (c : N) : bool := ((56320 <=? c) && (c <=? 57343))%N.

Definition quote_unit (c : N) : jsstring :=
  if N.eqb c 8 then [92%N; ch "b"]
  else if N.eqb c 9 then [92%N; ch "t"]
  else if N.eqb c 10 then [92%N; ch "n"]
  else if N.eqb c 12 then [92%N; ch "f"]
  else if N.eqb c 13 then [92%N; ch "r"]
  else if N.eqb c 34 then [92%N; 34%N]
  else if N.eqb c 92 then [92%N; 92%N]
  else if (c <? 32)%N || is_high_surrogate c || is_low_surrogate c
       then unicode_escape c
  else [c].

Fixpoint quote_units (s : jsstring) : jsstring :=
  match s with
  | [] => []
  | c :: r =>
      if is_high_surrogate c then
        match r with
        | d :: r' =>
            if is_low_surrogate d then c :: d :: quote_units r'
            else quote_unit c ++ quote_units r
        | [] => quote_unit c
        end
      else quote_unit c ++ quote_units r
  end.

(** [QuoteJSONString]. *)
Definition quote (s : jsstring) : jsstring := [34%N] ++ quote_units s ++ [34%N].

(** [JSON.stringify(v)] with no replacer and no indentation.  A number
    that is not finite is written [null]. *)
Fixpoint JSON_stringify (v : JSON) : jsstring :=
  match v with
  | JNull => str "null"
  | JBool true => str "true"
  | JBool false => str "false"
  | JNum (Infinite _) => str "null"
  | JNum n => Number_toString n
  | JStr s => quote s
  | JArr l => str "[" ++ join (str ",") (map JSON_stringify l) ++ str "]"
  | JObj o =>
      str "{"
      ++ join (str ",")
           (map (fun kv => quote (fst kv) ++ str ":" ++ JSON_stringify (snd kv)) o)
      ++ str "}"
  end.

(** Property access on a parsed value.  An object answers with its own
    properties, an array and a string with [length] and their indices.  The
    prototypes are not represented: none of the names the workers read
    ([model], [user], [system], ...) is inherited from one. *)
Definition get_prop (v : JSON) (k : jsstring) : option JSON :=
  match v with
  | JObj o => obj_get o k
  | JArr l =>
      if str_eqb k (str "length") then Some (JNum (num_of_Z (Z.of_nat (List.length l))))
      else match array_index k with
           | Some i => nth_error l (N.to_nat i)
           | None => None
           end
  | JStr s =>
      if str_eqb k (str "length") then Some (JNum (num_of_Z (Z.of_nat (List.length s))))
      else match array_index k with
           | Some i => option_map (fun c => JStr [c]) (nth_error s (N.to_nat i))
           | None => None
           end
  | _ => None
  end.

(** [k in v], for a [v] whose [typeof] is ["object"] and that is not null. *)
Definition has_prop (v : JSON) (k : jsstring) : bool :=
  match get_prop v k with Some _ => true | None => false end.

(** [typeof] of a value that may be [undefined] ([None]). *)
Definition typeof (v : option JSON) : jsstring :=
  match v with
  | None => str "undefined"
  | Some (JBool _) => str "boolean"
  | Some (JNum _) => str "number"
  | Some (JStr _) => str "string"
  | Some JNull | Some (JArr _) | Some (JObj _) => str "object"
  end.

(** [ToBoolean]. *)
Definition truthy (v : option JSON) : bool :=
  match v with
  | None | Some JNull => false
  | Some (JBool b) => b
  | Some (JNum (Finite _ m _)) => negb (Z.eqb m 0)
  | Some (JNum (Infinite _)) => true
  | Some (JStr s) => truthy_str s
  | Some (JArr _) | Some (JObj _) => true
  end.

(** [v == null]: true of [null] and [undefined] only. *)
Definition loosely_null (v : option JSON) : bool :=
  match v with None | Some JNull => true | _ => false end.

End Json.

(** ** The Fetch classes *)

Module Http.
Import JS.

Definition name_eqb (a b : jsstring) : bool := str_eqb (map lower a) (map lower b).

(** A header list, in the order the entries were added.  The list of a
    [Headers] object holds legal names and values only: [set] and [append]
    below are the ways in. *)
Definition Headers := list (jsstring * jsstring).

Definition named (name : jsstring) (kv : jsstring * jsstring) : bool :=
  name_eqb name (fst kv).

(** The values stored under [name], in order. *)
Definition h_values (h : Headers) (name : jsstring) : list jsstring :=
  map snd (filter (named name) h).

(** [h.get(name)]: the values under [name] joined by a comma and a space,
    [None] for [null].  (The workers call [get], [has] and [delete] with
    literal names, which are legal; the [TypeError] for a name that is not
    does not arise.) *)
Definition h_get (h : Headers) (name : jsstring) : option jsstring :=
  match h_values h name with
  | [] => None
  | l => Some (join (str ", ") l)
  end.

Definition h_has (h : Headers) (name : jsstring) : bool :=
  existsb (named name) h.

Definition h_delete (h : Headers) (name : jsstring) : Headers :=
  filter (fun kv => negb (named name kv)) h.

(** The list operations behind [append] and [set], on a name and a value
    that passed the checks: [entries_append] adds an entry at the end;
    [entries_set] gives the value to the first entry under [name] and
    removes the others, or adds the entry when there is none. *)
Definition entries_append (h : Headers) (name value : jsstring) : Headers :=
  h ++ [(name, value)].

Fixpoint entries_set (h : Headers) (name value : jsstring) : Headers :=
  match h with
  | [] => [(name, value)]
  | kv :: r =>
      if named name kv then (fst kv, value) :: h_delete r name
      else kv :: entries_set r name value
  end.

(** A header name is a token: one or more of the characters below. *)
Definition is_token_char (c : N) : bool :=
  ((c =? 33) || (35 <=? c) && (c <=? 39) || (c =? 42) || (c =? 43)
   || (c =? 45) || (c =? 46) || (48 <=? c) && (c <=? 57)
   || (65 <=? c) && (c <=? 90) || (94 <=? c) && (c <=? 122)
   || (c =? 124) || (c =? 126))%N.

Definition is_header_name (name : jsstring) : bool :=
  truthy_str name && forallb is_token_char name.

(** HTTP white space: tab, line feed, carriage return, space. *)
Definition is_http_space (c : N) : bool :=
  ((c =? 9) || (c =? 10) || (c =? 13) || (c =? 32))%N.

Fixpoint strip_start (s : jsstring) : jsstring :=
  match s with
  | [] => []
  | c :: r => if is_http_space c then strip_start r else s
  end.

(** A value normalised: the HTTP white space at both ends removed. *)
Definition normalize (value : jsstring) : jsstring :=
  rev (strip_start (rev (strip_start value))).

(** A code unit a header value may hold: a byte other than NUL, line feed
    and carriage return. *)
Definition is_value_unit (c : N) : bool :=
  ((c <=? 255) && negb ((c =? 0) || (c =? 10) || (c =? 13)))%N.

(** The value [set] and [append] store for the string they are given, or
    [None] for the [TypeError] they throw: the string must convert to a byte
    string (no code unit above 0xFF), and once normalised hold no NUL, line
    feed or carriage return. *)
Definition header_value (value : jsstring) : option jsstring :=
  if forallb (fun c => (c <=? 255)%N) value then
    let v := normalize value in
    if forallb is_value_unit v then Some v else None
  else None.

(** [h.append(name, value)] and [h.set(name, value)]; [None] when they
    throw. *)
Definition h_append (h : Headers) (name value : jsstring) : option Headers :=
  if is_header_name name then
    match header_value value with
    | Some v => Some (entries_append h name v)
    | None => None
    end
  else None.

Definition h_set (h : Headers) (name value : jsstring) : option Headers :=
  if is_header_name name then
    match header_value value with
    | Some v => Some (entries_set h name v)
    | None => None
    end
  else None.

(** [new Headers(record)], also where a record is given as the [headers]
    of a [Response]: one [append] per property, in order. *)
Definition h_of_record (o : Json.Obj jsstring) : option Headers :=
  fold_left (fun acc kv => match acc with
                           | Some h => h_append h (fst kv) (snd kv)
                           | None => None
                           end) o (Some []).

(** A body stream, by what reading it to the end gives: its text, or an
    error ([Broken]: the peer went away, the stream was cancelled). *)
Inductive Body : Type :=
| Stream (text : jsstring)
| Broken.

Inductive BodyInit : Type :=
| OfString (s : jsstring)
| OfStream (b : Body).

Record URL : Type := { pathname : jsstring; search : jsstring }.

(** [req_body] is [req.body]: the stream, or [null]. *)
Record Request : Type :=
  { method : jsstring;
    url : URL;
    req_headers : Headers;
    req_body : option Body }.

(** [await req.text()]: the empty string without a body, [None] when the
    read rejects. *)
Definition text_of_request (req : Request) : option jsstring :=
  match req_body req with
  | None => Some []
  | Some (Stream s) => Some s
  | Some Broken => None
  end.

Record Response : Type :=
  { status : Z;
    headers : Headers;
    body : option Body }.

Definition null_body_status (s : Z) : bool :=
  ((s =? 101) || (s =? 103) || (s =? 204) || (s =? 205) || (s =? 304))%Z.

(** [new Response(body, { status, headers })] for headers that are a
    [Headers] object or already filled from a record.  The constructor
    throws a [RangeError] for a status outside 200..599 and a [TypeError]
    for a body given with a null-body status ([None] here); a body given as
    a string brings its [Content-Type] when the headers carry none. *)
Definition new_Response (b : option BodyInit) (st : Z) (h : Headers)
  : option Response :=
  if ((st <? 200) || (599 <? st))%Z then None
  else match b with
       | None => Some {| status := st; headers := h; body := None |}
       | Some i =>
           if null_body_status st then None
           else match i with
                | OfString s =>
                    Some {| status := st;
                            headers := if h_has h (str "Content-Type") then h
                                       else entries_append h (str "content-type")
                                              (str "text/plain;charset=UTF-8");
                            body := Some (Stream s) |}
                | OfStream x =>
                    Some {| status := st; headers := h; body := Some x |}
                end
       end.

(** [res.ok]. *)
Definition ok (res : Response) : bool := ((200 <=? status res) && (status res <=? 299))%Z.

(** [await res.text()]: [None] when the read rejects. *)
Definition text_of_response (res : Response) : option jsstring :=
  match body res with
  | None => Some []
  | Some (Stream s) => Some s
  | Some Broken => None
  end.

(** A response as [fetch] resolves with. *)
Definition from_network (res : Response) : Prop :=
  (200 <= status res <= 599)%Z /\
  (null_body_status (status res) = true -> body res = None).

(** The target of the outbound call: the serialisation of the URL that
    [new URL(rel, base)] gave, or a literal address. *)
Inductive Target : Type :=
| Resolve (rel base : jsstring)
| Absolute (address : jsstring).

(** [new URL(rel, base)] under a parser that accepts the references
    [parses] says; [None] for the [TypeError] it throws on the others. *)
Definition new_URL (parses : jsstring -> jsstring -> bool) (rel base : jsstring)
  : option Target :=
  if parses rel base then Some (Resolve rel base) else None.

(** The second argument of [fetch].  [init_headers] is the [headers] member
    as the handler gives it: the list of a [Headers] object, or the entries
    of a record, which the call itself checks. *)
Record RequestInit : Type :=
  { init_method : jsstring;
    init_headers : Headers;
    init_body : option BodyInit }.

(** What a handler does: it resolves with a value, rejects ([Throw]), or
    awaits one call of the global [fetch] and goes on with its response. *)
Inductive Eff (A : Type) : Type :=
| Ret (a : A)
| Throw
| Fetch (t : Target) (i : RequestInit) (k : Response -> Eff A).

Arguments Ret {A} a.
Arguments Throw {A}.
Arguments Fetch {A} t i k.

Fixpoint bind {A B : Type} (m : Eff A) (f : A -> Eff B) : Eff B :=
  match m with
  | Ret a => f a
  | Throw => Throw
  | Fetch t i k => Fetch t i (fun r => bind (k r) f)
  end.

(** An expression that may throw. *)
Definition try {A : Type} (o : option A) : Eff A :=
  match o with Some a => Ret a | None => Throw end.

(** Sequencing of expressions that may throw. *)
Definition and_then {A B : Type} (o : option A) (f : A -> option B) : option B :=
  match o with Some a => f a | None => None end.

(** The handler reaches the call of [fetch]. *)
Definition contacts_upstream {A : Type} (m : Eff A) : bool :=
  match m with Fetch _ _ _ => true | _ => false end.

Definition Network := Target -> RequestInit -> option Response.

(** Running a handler against a network: the outcome ([None] when the
    handler rejects) and the calls made, in order.  A network that answers
    [None] is a call that rejects (the transport failed, or [fetch] refused
    its arguments), which the handlers do not catch. *)
Fixpoint run {A : Type} (net : Network) (m : Eff A)
  : option A * list (Target * RequestInit) :=
  match m with
  | Ret a => (Some a, [])
  | Throw => (None, [])
  | Fetch t i k =>
      match net t i with
      | None => (None, [(t, i)])
      | Some r => let (a, calls) := run net (k r) in (a, (t, i) :: calls)
      end
  end.

End Http.

Declare Scope eff_scope.
Delimit Scope eff_scope with eff.
Notation "x <- m ;; k" := (Http.bind m (fun x => k))
  (at level 61, m at next level, right associativity) : eff_scope.

Declare Scope opt_scope.
Delimit Scope opt_scope with opt.
Notation "x <- m ;; k" := (Http.and_then m (fun x => k))
  (at level 61, m at next level, right associativity) : opt_scope.

(** ** The path-mirroring worker *)

Module PathMirror.
Import JS Json Http.
Local Open Scope eff_scope.

Record Env : Type :=
  { GROQ_API_KEY : jsstring;
    ALLOW_MODELS : option jsstring;
    ALLOW_PATHS : option jsstring;
    CORS_ORIGINS : option jsstring }.

Definition UPSTREAM_ORIGIN : jsstring := str "https://api.groq.com".

Definition csv (s : option jsstring) : list jsstring :=
  filter truthy_str
    (map trim (split (ch ",") (match s with Some x => x | None => [] end))).

(** [a.length] used as a condition. *)
Definition nonempty {A : Type} (a : list A) : bool :=
  negb (Nat.eqb (List.length a) 0).

(** [x || d] for [x] a string or [null]. *)
Definition or_else (x : option jsstring) (d : jsstring) : jsstring :=
  match x with
  | Some s => if truthy_str s then s else d
  | None => d
  end.

Definition pickOrigin (req : Request) (env : Env) : jsstring :=
  let fromList := csv (CORS_ORIGINS env) in
  let reqOrigin := h_get (req_headers req) (str "Origin") in
  if nonempty fromList then
    match reqOrigin with
    | Some o =>
        if truthy_str o && arr_includes fromList o then o
        else match hd_error fromList with
             | Some origin => if truthy_str origin then origin else str "*"
             | None => str "*"
             end
    | None =>
        match hd_error fromList with
        | Some origin => if truthy_str origin then origin else str "*"
        | None => str "*"
        end
    end
  else str "*".

(** [None] when one of the calls of [set] and [append], or the
    constructor, throws. *)
Definition withCORS (res : Response) (origin : jsstring) : option Response :=
  (let h := headers res in
   h <- h_set h (str "Access-Control-Allow-Origin") origin ;;
   h <- h_set h (str "Access-Control-Allow-Headers")
          (str "Content-Type, Authorization") ;;
   h <- h_set h (str "Access-Control-Allow-Methods") (str "GET, POST, OPTIONS") ;;
   h <- (if negb (str_eqb origin (str "*"))
         then h_append h (str "Vary") (str "Origin") else Some h) ;;
   new_Response (option_map OfStream (body res)) (status res) h)%opt.

Definition defaults : list jsstring :=
  [ str "/openai/v1/chat/completions";
    str "/openai/v1/responses";
    str "/openai/v1/embeddings";
    str "/openai/v1/models" ].

Definition allowedPath (pathname : jsstring) (env : Env) : bool :=
  let allow := csv (ALLOW_PATHS env) in
  let list := if nonempty allow then allow else defaults in
  existsb (fun p => str_eqb pathname p || startsWith pathname p) list.

(** The expression that reads the requested model off the parsed body. *)
Definition requested_model (json : JSON) : jsstring :=
  trim
    (if str_eqb (typeof (Some json)) (str "object")
        && negb (match json with JNull => true | _ => false end)
        && has_prop json (str "model")
        && str_eqb (typeof (get_prop json (str "model"))) (str "string")
     then match get_prop json (str "model") with
          | Some (JStr s) => s
          | _ => []
          end
     else []).

(** [raw ? JSON.parse(raw) : {}]; [None] when [JSON.parse] throws. *)
Definition parse_body (raw : jsstring) : option JSON :=
  if truthy_str raw then JSON_parse raw else Some (JObj []).

(** The record given as the headers of the JSON answers. *)
Definition json_record : Obj jsstring :=
  [(str "Content-Type", str "application/json")].

(** The headers of the outbound call (lines 89 to 95); [None] when one of
    the calls of [set] throws. *)
Definition upstream_headers (req : Request) (env : Env) : option Headers :=
  (let headers := req_headers req in
   headers <- h_set headers (str "Authorization")
                (str "Bearer " ++ GROQ_API_KEY env) ;;
   headers <- h_set headers (str "Content-Type")
                (or_else (h_get headers (str "Content-Type"))
                   (str "application/json")) ;;
   Some (h_delete headers (str "Host")))%opt.

(** The call of [fetch] and the relay of its response (lines 153 to
    166). *)
Definition proxy (req : Request) (upstream : Target) (headers : Headers)
  (origin : jsstring) (body : option BodyInit) : Eff Response :=
  Fetch upstream
    {| init_method := method req;
       init_headers := headers;
       init_body := if str_eqb (method req) (str "GET")
                       || str_eqb (method req) (str "HEAD")
                    then None else body |}
    (fun upstreamRes =>
       let resHeaders := Http.headers upstreamRes in
       proxied <- try (new_Response (option_map OfStream (Http.body upstreamRes))
                         (status upstreamRes) resHeaders) ;;
       try (withCORS proxied origin)).

Section Handler.

(** The URL parser of the platform, by the references it accepts:
    [url_parses rel base] says that [new URL(rel, base)] returns.  What it
    accepts as a host, an address or a port is not represented. *)
Variable url_parses : jsstring -> jsstring -> bool.

Definition fetch (req : Request) (env : Env) : Eff Response :=
  let origin := pickOrigin req env in
  let url := url req in
  if str_eqb (pathname url) (str "/health") then
    h <- try (h_of_record json_record) ;;
    res <- try (new_Response
                  (Some (OfString (JSON_stringify (JObj [(str "ok", JBool true)]))))
                  200 h) ;;
    try (withCORS res origin)
  else if str_eqb (method req) (str "OPTIONS") then
    res <- try (new_Response None 204 []) ;;
    try (withCORS res origin)
  else if negb (allowedPath (pathname url) env) then
    res <- try (new_Response (Some (OfString (str "Not found"))) 404 []) ;;
    try (withCORS res origin)
  else
    upstream <- try (new_URL url_parses (pathname url ++ search url) UPSTREAM_ORIGIN) ;;
    headers <- try (upstream_headers req env) ;;
    if str_eqb (method req) (str "POST") then
      let ct := or_else (h_get headers (str "Content-Type")) [] in
      if includes ct (str "application/json") then
        raw <- try (text_of_request req) ;;
        match parse_body raw with
        | None =>
            h <- try (h_of_record json_record) ;;
            res <- try (new_Response
                          (Some (OfString
                                   (JSON_stringify
                                      (JObj [(str "error", JStr (str "Invalid JSON"))]))))
                          400 h) ;;
            try (withCORS res origin)
        | Some json =>
            let allowedModels := csv (ALLOW_MODELS env) in
            let requested := requested_model json in
            if nonempty allowedModels
               && (negb (truthy_str requested)
                   || negb (arr_includes allowedModels requested))
            then
              h <- try (h_of_record json_record) ;;
              res <- try (new_Response
                            (Some (OfString
                                     (JSON_stringify
                                        (JObj [(str "error", JStr (str "Model not allowed"));
                                               (str "allowed", JArr (map JStr allowedModels))]))))
                            403 h) ;;
              try (withCORS res origin)
            else proxy req upstream headers origin
                   (Some (OfString (JSON_stringify json)))
        end
      else proxy req upstream headers origin (option_map OfStream (req_body req))
    else proxy req upstream headers origin None.

End Handler.

End PathMirror.

(** ** The fixed-endpoint worker *)

Module FixedEndpoint.
Import JS Json Http.
Local Open Scope eff_scope.

Record Env : Type := { GROQ_API_KEY : jsstring }.

Definition CORS_ORIGIN : jsstring := str "https://george.czabania.com".

(** An object literal followed by a spread of [extra]. *)
Definition spread (base extra : Obj jsstring) : Obj jsstring :=
  fold_left (fun o kv => obj_set o (fst kv) (snd kv)) extra base.

Definition json (data : JSON) (status : Z) (extra : Obj jsstring)
  : option Response :=
  (h <- h_of_record
          (spread
             [ (str "Content-Type", str "application/json");
               (str "Access-Control-Allow-Origin", CORS_ORIGIN);
               (str "Access-Control-Allow-Headers", str "Content-Type, Authorization");
               (str "Access-Control-Allow-Methods", str "POST, OPTIONS") ]
             extra) ;;
   new_Response (Some (OfString (JSON_stringify data))) status h)%opt.

Definition corsPreflight : option Response :=
  (h <- h_of_record
          [ (str "Access-Control-Allow-Origin", CORS_ORIGIN);
            (str "Access-Control-Allow-Headers", str "Content-Type, Authorization");
            (str "Access-Control-Allow-Methods", str "POST, OPTIONS");
            (str "Access-Control-Max-Age", str "86400") ] ;;
   new_Response None 204 h)%opt.

(** [await request.json()]; [None] when it rejects: the read failed or the
    text does not parse. *)
Definition json_of_request (request : Request) : option JSON :=
  (raw <- text_of_request request ;; JSON_parse raw)%opt.

(** A destructured property with a default: the default stands in for
    [undefined] only. *)
Definition with_default (v : option JSON) (d : JSON) : JSON :=
  match v with Some x => x | None => d end.

(** The payload sent upstream, from the destructured fields. *)
Definition payload_of (system user model temperature max_tokens top_p : JSON)
  (stop : option JSON) : Obj JSON :=
  let payload :=
    [ (str "model", model);
      (str "temperature", temperature);
      (str "top_p", top_p);
      (str "stream", JBool true);
      (str "max_completion_tokens", max_tokens);
      (str "messages",
       JArr [ JObj [(str "role", JStr (str "system")); (str "content", system)];
              JObj [(str "role", JStr (str "user")); (str "content", user)] ]) ] in
  if negb (loosely_null stop)
  then obj_set payload (str "stop") (with_default stop JNull)
  else payload.

Definition groq_address : jsstring :=
  str "https://api.groq.com/openai/v1/chat/completions".

(** The relay of the upstream response. *)
Definition relay (groqRes : Response) : Eff Response :=
  if negb (ok groqRes) || negb (match body groqRes with Some _ => true | None => false end)
  then
    let details := match text_of_response groqRes with
                   | Some t => t
                   | None => []
                   end in
    try (json (JObj [ (str "error", JStr (str "Upstream Groq error"));
                      (str "status", JNum (num_of_Z (status groqRes)));
                      (str "details", JStr (slice0 2000 details)) ])
           (status groqRes) [])
  else
    try (let headers : Headers := [] in
         headers <- h_set headers (str "Content-Type") (str "text/event-stream") ;;
         headers <- h_set headers (str "Cache-Control") (str "no-cache") ;;
         headers <- h_set headers (str "Connection") (str "keep-alive") ;;
         headers <- h_set headers (str "Access-Control-Allow-Origin") CORS_ORIGIN ;;
         headers <- h_set headers (str "Access-Control-Allow-Headers")
                      (str "Content-Type, Authorization") ;;
         headers <- h_set headers (str "Access-Control-Allow-Methods")
                      (str "POST, OPTIONS") ;;
         new_Response (option_map OfStream (body groqRes)) 200 headers)%opt.

(** The headers of the outbound call are given to [fetch] as a record: the
    call receives its entries as they are written. *)
Definition fetch (request : Request) (env : Env) : Eff Response :=
  let url := url request in
  if str_eqb (method request) (str "OPTIONS") then try corsPreflight
  else if str_eqb (pathname url) (str "/health") then
    try (json (JObj [(str "ok", JBool true)]) 200 [])
  else if negb (str_eqb (pathname url) (str "/chat")) then
    try (new_Response (Some (OfString (str "Not found"))) 404 [])
  else if negb (str_eqb (method request) (str "POST")) then
    try (new_Response (Some (OfString (str "Method Not Allowed"))) 405 [])
  else
    match json_of_request request with
    | None => try (json (JObj [(str "error", JStr (str "Invalid JSON"))]) 400 [])
    | Some parsed =>
        let body := match parsed with JNull => JObj [] | _ => parsed end in
        let system := with_default (get_prop body (str "system"))
                        (JStr (str "You are a helpful assistant.")) in
        let user := get_prop body (str "user") in
        let model := with_default (get_prop body (str "model"))
                       (JStr (str "llama-3.1-8b-instant")) in
        let temperature := with_default (get_prop body (str "temperature"))
                             (JNum (num_of_Z 1)) in
        let max_tokens := with_default (get_prop body (str "max_tokens"))
                            (JNum (num_of_Z 1024)) in
        let top_p := with_default (get_prop body (str "top_p")) (JNum (num_of_Z 1)) in
        let stop := get_prop body (str "stop") in
        if negb (truthy user) || negb (str_eqb (typeof user) (str "string")) then
          try (json (JObj [(str "error", JStr (str "Missing 'user' (string) in body"))])
                 400 [])
        else
          let payload :=
            payload_of system (with_default user JNull) model temperature
              max_tokens top_p stop in
          Fetch (Absolute groq_address)
            {| init_method := str "POST";
               init_headers :=
                 [ (str "Authorization", str "Bearer " ++ GROQ_API_KEY env);
                   (str "Content-Type", str "application/json") ];
               init_body := Some (OfString (JSON_stringify (JObj payload))) |}
            relay
    end.

End FixedEndpoint.

(** * The statements under study

    The vocabulary of the specification, defined on the model: what it
    means for a response to carry the CORS headers, for a path or a model to
    be on its allowlist, and the behaviours the specification ascribes to
    the two workers. *)

Module Spec.
Import JS Json Http.

Definition ACAO : jsstring := str "Access-Control-Allow-Origin".
Definition ACAH : jsstring := str "Access-Control-Allow-Headers".
Definition ACAM : jsstring := str "Access-Control-Allow-Methods".

(** The header list holds the entry [name: value]. *)
Definition has_entry (h : Headers) (name value : jsstring) : bool :=
  arr_includes (h_values h name) value.

Definition varies_on_origin (r : Response) : bool :=
  has_entry (headers r) (str "Vary") (str "Origin").

(** The headers [withCORS] leaves on a response: the three CORS entries,
    with the origin as [Headers.set] stored it, and [Vary: Origin] when
    [vary] holds. *)
Definition cors_entries (h : Headers) (stored : jsstring) (vary : bool) : Headers :=
  let h := entries_set h ACAO stored in
  let h := entries_set h ACAH (str "Content-Type, Authorization") in
  let h := entries_set h ACAM (str "GET, POST, OPTIONS") in
  if vary then entries_append h (str "Vary") (str "Origin") else h.

(** The same for an origin that is stored as it is given. *)
Definition cors_headers (h : Headers) (origin : jsstring) : Headers :=
  cors_entries h origin (negb (str_eqb origin (str "*"))).

(** The response carries the CORS headers of the path-mirroring worker. *)
Definition carries_cors (r : Response) (origin : jsstring) : Prop :=
  h_values (headers r) ACAO = [origin] /\
  h_values (headers r) ACAH = [str "Content-Type, Authorization"] /\
  h_values (headers r) ACAM = [str "GET, POST, OPTIONS"].

(** *** Allowlists *)

Definition model_allowlist (env : PathMirror.Env) : list jsstring :=
  PathMirror.csv (PathMirror.ALLOW_MODELS env).

Definition path_allowlist (env : PathMirror.Env) : list jsstring :=
  match PathMirror.csv (PathMirror.ALLOW_PATHS env) with
  | [] => PathMirror.defaults
  | l => l
  end.

(** The path equals or starts with a member of the path allowlist. *)
Definition path_allowed (path : jsstring) (env : PathMirror.Env) : Prop :=
  exists p, In p (path_allowlist env) /\
            (path = p \/ exists rest, path = p ++ rest).

(** The origin the specification resolves: the request's [Origin] when the
    allowlist holds it, else the first entry of the allowlist, else the
    wildcard. *)
Definition resolved_origin (req : Request) (env : PathMirror.Env) : jsstring :=
  match PathMirror.csv (PathMirror.CORS_ORIGINS env) with
  | [] => str "*"
  | first :: rest =>
      match h_get (req_headers req) (str "Origin") with
      | Some o => if arr_includes (first :: rest) o then o else first
      | None => first
      end
  end.

(** *** Requests *)

Definition is_method (req : Request) (m : string) : Prop := method req = str m.

Definition on_path (req : Request) (p : string) : Prop := pathname (url req) = str p.


(** The [model] field of a parsed body, trimmed; empty when the field is
    absent or not a string. *)
Definition model_field (json : JSON) : jsstring :=
  match json with
  | JObj o => match obj_get o (str "model") with
              | Some (JStr s) => trim s
              | _ => []
              end
  | _ => []
  end.

(** The body as the path-mirroring worker reads it: the empty object for an
    empty text, the parsed text otherwise; [None] when the body cannot be
    read or does not parse. *)
Definition body_json (req : Request) : option JSON :=
  and_then (text_of_request req) PathMirror.parse_body.

Definition requested (req : Request) : jsstring :=
  match body_json req with
  | Some json => model_field json
  | None => []
  end.

Definition error_body (fields : Obj JSON) : option Body :=
  Some (Stream (JSON_stringify (JObj fields))).

Definition model_not_allowed (L : list jsstring) : Obj JSON :=
  [ (str "error", JStr (str "Model not allowed"));
    (str "allowed", JArr (map JStr L)) ].

(** The incoming [Content-Type] if one was set, JSON otherwise. *)
Definition content_type_if_set (req : Request) : jsstring :=
  match h_get (req_headers req) (str "Content-Type") with
  | Some ct => ct
  | None => str "application/json"
  end.

(** The incoming [Content-Type] if one was set and is not empty, JSON
    otherwise. *)
Definition content_type_if_nonempty (req : Request) : jsstring :=
  match h_get (req_headers req) (str "Content-Type") with
  | Some (c :: ct) => c :: ct
  | _ => str "application/json"
  end.

(** The credential as a bearer token. *)
Definition bearer (env : PathMirror.Env) : jsstring :=
  str "Bearer " ++ PathMirror.GROQ_API_KEY env.

(** *** What the runtime accepts *)

(** The string is not empty and has no HTTP white space at its start, or at
    its end: [Headers.set] stores such a string as it is given. *)
Definition starts_clean (s : jsstring) : Prop :=
  match s with c :: _ => is_http_space c = false | [] => False end.

Definition ends_clean (s : jsstring) : Prop := starts_clean (rev s).

(** [Headers.set] accepts the value: it does not throw. *)
Definition accepted (value : jsstring) : Prop := header_value value <> None.

(** Every value of the header list is made of the code units a header value
    may hold, as the values of a request that the platform delivers are. *)
Definition legal_headers (h : Headers) : Prop :=
  Forall (fun kv => forallb is_value_unit (snd kv) = true) h.

Definition legal_request (req : Request) : Prop := legal_headers (req_headers req).

(** The body of the request can be read to its end. *)
Definition readable (req : Request) : Prop := text_of_request req <> None.

(** The worker can answer under the CORS headers: the origin it resolves
    is one [Headers.set] accepts. *)
Definition answerable (req : Request) (env : PathMirror.Env) : Prop :=
  accepted (resolved_origin req env).

(** *** Responses *)

(** A status a response with a body may have. *)
Definition admits_body (s : Z) : Prop :=
  (200 <= s <= 599)%Z /\ null_body_status s = false.

(** A response the constructor accepts: it can be rebuilt with other
    headers. *)
Definition well_formed (r : Response) : Prop :=
  (200 <= status r <= 599)%Z /\
  (body r <> None -> null_body_status (status r) = false).

(** A response of the path-mirroring worker: status, headers before
    [withCORS], body, and the origin [withCORS] is given. *)
Definition answer (st : Z) (h : Headers) (b : option Body) (origin : jsstring)
  : Response :=
  {| status := st; headers := cors_headers h origin; body := b |}.

(** The response, when [withCORS] accepts the origin; a rejection
    otherwise. *)
Definition delivered (origin : jsstring) (r : Response) : Eff Response :=
  match header_value origin with Some _ => Ret r | None => Throw end.

Definition text_plain : Headers :=
  [(str "content-type", str "text/plain;charset=UTF-8")].

Definition json_headers : Headers := [(str "Content-Type", str "application/json")].

(** The worker reads the body of a POST as JSON: the [Content-Type] it
    stored for the outbound call names [application/json]. *)
Definition inspects_json (req : Request) : bool :=
  includes (normalize (content_type_if_nonempty req)) (str "application/json").

Definition invalid_json : Obj JSON := [ (str "error", JStr (str "Invalid JSON")) ].

(** The headers of the outbound call, for the values [Headers.set] stored
    under [Authorization] and [Content-Type]. *)
Definition outbound (req : Request) (authorization content_type : jsstring) : Headers :=
  h_delete
    (entries_set (entries_set (req_headers req) (str "Authorization") authorization)
       (str "Content-Type") content_type)
    (str "Host").

(** The headers of the outbound call of a request that is forwarded. *)
Definition outbound_of (req : Request) (env : PathMirror.Env) : Headers :=
  outbound req (normalize (bearer env)) (normalize (content_type_if_nonempty req)).

(** The address of the outbound call. *)
Definition mirror_target (req : Request) : Target :=
  Resolve (pathname (url req) ++ search (url req)) PathMirror.UPSTREAM_ORIGIN.

(** *** C2: the headers of the outbound call *)

Definition outbound_headers (authorization content_type : jsstring) (i : RequestInit)
  : Prop :=
  h_values (init_headers i) (str "Authorization") = [authorization] /\
  h_values (init_headers i) (str "Host") = [] /\
  h_get (init_headers i) (str "Content-Type") = Some content_type.

(** *** C3: the payload check *)

(** The payload check finds the body invalid: a POST read as JSON whose
    body does not parse. *)
Definition invalid_body (req : Request) : Prop :=
  is_method req "POST" /\ inspects_json req = true /\
  exists raw, text_of_request req = Some raw /\ PathMirror.parse_body raw = None.

(** The payload check refuses the model: a POST read as JSON whose body
    parses and asks for a model outside a non-empty allowlist. *)
Definition model_refused (req : Request) (env : PathMirror.Env) : Prop :=
  is_method req "POST" /\ inspects_json req = true /\
  exists json, body_json req = Some json /\
               ~ (model_allowlist env = [] \/ In (model_field json) (model_allowlist env)).

(** The upstream answered one of the calls with a response that already
    varied on the origin. *)
Definition upstream_varies (net : Network) (calls : list (Target * RequestInit)) : Prop :=
  exists t i u, In (t, i) calls /\ net t i = Some u /\ varies_on_origin u = true.

(** *** C4: the origin of the response *)

Definition cors_resolution (req : Request) (env : PathMirror.Env) (r : Response)
  : Prop :=
  h_values (headers r) ACAO = [resolved_origin req env] /\
  (varies_on_origin r = true <-> resolved_origin req env <> str "*").

Definition cors_resolution_relayed (req : Request) (env : PathMirror.Env)
  (net : Network) (calls : list (Target * RequestInit)) (r : Response) : Prop :=
  h_values (headers r) ACAO = [resolved_origin req env] /\
  (varies_on_origin r = true
   <-> resolved_origin req env <> str "*" \/ upstream_varies net calls).

Section Mirror.

(** The URL parser the handler runs under. *)
Variable url_parses : jsstring -> jsstring -> bool.

(** The request can be forwarded: [new URL] accepts its path and query, and
    [Headers.set] accepts the credential. *)
Definition forwardable (req : Request) (env : PathMirror.Env) : Prop :=
  url_parses (pathname (url req) ++ search (url req)) PathMirror.UPSTREAM_ORIGIN = true /\
  accepted (bearer env).

(** *** C1: the model allowlist *)



(** *** C3: the path allowlist *)

Definition path_gate (req : Request) (env : PathMirror.Env) : Prop :=
  (contacts_upstream (PathMirror.fetch url_parses req env) = true
   <-> path_allowed (pathname (url req)) env) /\
  (~ path_allowed (pathname (url req)) env ->
   exists r, PathMirror.fetch url_parses req env = Ret r /\ status r = 404%Z).

(** The path gate, then the payload check: the upstream is contacted only
    on an allowed path; there, exactly when the payload check neither finds
    the body invalid (answer 400) nor refuses the model (answer 403); any
    other path is answered 404. *)
Definition path_gate_then_payload (req : Request) (env : PathMirror.Env) : Prop :=
  (contacts_upstream (PathMirror.fetch url_parses req env) = true
   -> path_allowed (pathname (url req)) env) /\
  (path_allowed (pathname (url req)) env ->
   legal_request req -> readable req -> forwardable req env ->
   (contacts_upstream (PathMirror.fetch url_parses req env) = true
    <-> ~ invalid_body req /\ ~ model_refused req env) /\
   (answerable req env -> invalid_body req ->
    exists r, PathMirror.fetch url_parses req env = Ret r /\ status r = 400%Z) /\
   (answerable req env -> model_refused req env ->
    exists r, PathMirror.fetch url_parses req env = Ret r /\ status r = 403%Z)) /\
  (~ path_allowed (pathname (url req)) env -> answerable req env ->
   exists r, PathMirror.fetch url_parses req env = Ret r /\ status r = 404%Z).

(** *** C6: preflight *)

Definition preflight_answer (req : Request) (env : PathMirror.Env) : Prop :=
  exists r, PathMirror.fetch url_parses req env = Ret r /\
            status r = 204%Z /\
            body r = None /\
            carries_cors r (resolved_origin req env).

(** *** C9: the empty body *)




End Mirror.

(** *** C7: the reshaped payload *)

(** The text [{"user":"hi"}]. *)
Definition user_hi : jsstring :=
  str "{" ++ quote (str "user") ++ str ":" ++ quote (str "hi") ++ str "}".

Definition default_messages : JSON :=
  JArr [ JObj [ (str "role", JStr (str "system"));
                (str "content", JStr (str "You are a helpful assistant.")) ];
         JObj [ (str "role", JStr (str "user"));
                (str "content", JStr (str "hi")) ] ].

Definition default_payload (payload : Obj JSON) : Prop :=
  obj_get payload (str "model") = Some (JStr (str "llama-3.1-8b-instant")) /\
  obj_get payload (str "messages") = Some default_messages /\
  obj_get payload (str "max_completion_tokens") = Some (JNum (num_of_Z 1024)) /\
  obj_get payload (str "temperature") = Some (JNum (num_of_Z 1)) /\
  obj_get payload (str "top_p") = Some (JNum (num_of_Z 1)) /\
  obj_get payload (str "stream") = Some (JBool true) /\
  obj_get payload (str "stop") = None.

(** *** C8: the relay of the fixed-endpoint worker *)

(** The upstream's textual body; empty when there is none or when reading
    it fails. *)
Definition upstream_text (groqRes : Response) : jsstring :=
  match text_of_response groqRes with Some t => t | None => [] end.

Definition upstream_error (groqRes : Response) : Obj JSON :=
  [ (str "error", JStr (str "Upstream Groq error"));
    (str "status", JNum (num_of_Z (status groqRes)));
    (str "details", JStr (firstn 2000 (upstream_text groqRes))) ].

Definition failed (groqRes : Response) : Prop :=
  ok groqRes = false \/ body groqRes = None.

Definition event_stream (r : Response) : Prop :=
  h_values (headers r) (str "Content-Type") = [str "text/event-stream"] /\
  h_values (headers r) (str "Cache-Control") = [str "no-cache"] /\
  h_values (headers r) (str "Connection") = [str "keep-alive"].

Definition relayed (groqRes : Response) (out : Eff Response) : Prop :=
  (failed groqRes ->
   exists r, out = Ret r /\
             status r = status groqRes /\
             body r = error_body (upstream_error groqRes) /\
             (List.length (firstn 2000 (upstream_text groqRes)) <= 2000)%nat) /\
  (~ failed groqRes ->
   exists r, out = Ret r /\
             status r = 200%Z /\
             body r = body groqRes /\
             event_stream r).

(** *** C10: the missing user *)

Definition missing_user : Obj JSON :=
  [ (str "error", JStr (str "Missing 'user' (string) in body")) ].

Definition user_missing_answer (request : Request) (env : FixedEndpoint.Env)
  : Prop :=
  exists r, FixedEndpoint.fetch request env = Ret r /\
            FixedEndpoint.json (JObj missing_user) 400 [] = Some r /\
            status r = 400%Z /\
            body r = error_body missing_user.

End Spec.

(** * Concrete requests and configurations *)

Module Examples.
Import JS Json Http.

Definition chat_completions : string := "/openai/v1/chat/completions".

Definition request (m p : string) (h : Headers) (b : option Body) : Request :=
  {| method := str m;
     url := {| pathname := str p; search := [] |};
     req_headers := h;
     req_body := b |}.

(** A body that reads as [s]. *)
Definition text (s : jsstring) : option Body := Some (Stream s).

Definition json_type : Headers := [(str "Content-Type", str "application/json")].

(** An object with one string field, as text. *)
Definition one_field (k v : string) : jsstring :=
  str "{" ++ quote (str k) ++ str ":" ++ quote (str v) ++ str "}".

(** A parser for the references that name no host of their own: it refuses
    those that start with two slashes, among which are the ones the
    platform's parser refuses ([//[] for one), and accepts the others. *)
Definition no_authority (rel base : jsstring) : bool :=
  negb (startsWith rel (str "//")).

Definition environment (key : jsstring) (models paths origins : option jsstring)
  : PathMirror.Env :=
  {| PathMirror.GROQ_API_KEY := key;
     PathMirror.ALLOW_MODELS := models;
     PathMirror.ALLOW_PATHS := paths;
     PathMirror.CORS_ORIGINS := origins |}.

(** Nothing configured but the credential. *)
Definition plain_env : PathMirror.Env := environment (str "gsk_test") None None None.

(** One model allowed. *)
Definition one_model_env : PathMirror.Env :=
  environment (str "gsk_test") (Some (str "llama-3.1-8b-instant")) None None.

(** Every path allowed. *)
Definition any_path_env : PathMirror.Env :=
  environment (str "gsk_test") None (Some (str "/")) None.

(** One origin allowed. *)
Definition one_origin_env : PathMirror.Env :=
  environment (str "gsk_test") None None (Some (str "https://good.com")).

(** Two origins written on two lines instead of with a comma: one entry,
    with a line feed inside. *)
Definition two_lines : jsstring := str "https://a.com" ++ [10%N] ++ str "https://b.com".

Definition two_lines_env : PathMirror.Env :=
  environment (str "gsk_test") (Some (str "llama-3.1-8b-instant")) None (Some two_lines).

(** A credential with a line feed inside, and one with a line feed at its
    end. *)
Definition broken_key_env : PathMirror.Env :=
  environment (str "gsk" ++ [10%N] ++ str "test") None None None.

Definition padded_key_env : PathMirror.Env :=
  environment (str "gsk_test" ++ [10%N]) None None None.

Definition chat_env : FixedEndpoint.Env :=
  {| FixedEndpoint.GROQ_API_KEY := str "gsk_test" |}.



(** A POST that declares JSON and carries none. *)
Definition not_json_post : Request :=
  request "POST" chat_completions json_type (text (str "not json")).

(** A POST whose body cannot be read. *)
Definition broken_post : Request :=
  request "POST" chat_completions json_type (Some Broken).

(** A well-formed POST to the health check. *)
Definition health_post : Request :=
  request "POST" "/health" json_type
    (text (one_field "model" "llama-3.1-8b-instant")).


Definition stray_empty_post : Request :=
  request "POST" "/nope" json_type None.


Definition bracket_get : Request := request "GET" "//[" [] None.

(** A GET whose [Content-Type] is present and empty. *)
Definition empty_type_get : Request :=
  request "GET" "/openai/v1/models" [(str "Content-Type", [])] None.

(** A GET that brings its own [Authorization] and [Host]. *)
Definition own_credentials_get : Request :=
  request "GET" "/openai/v1/models"
    [ (str "authorization", str "Bearer stolen");
      (str "host", str "relay.example");
      (str "Content-Type", str "text/plain") ] None.

Definition models_get : Request := request "GET" "/openai/v1/models" [] None.

(** A GET from an origin that is not on the allowlist. *)
Definition evil_origin_get : Request :=
  request "GET" "/openai/v1/models" [(str "Origin", str "https://evil.com")] None.

(** The call the worker makes for a GET of the models under the credential
    of [plain_env]. *)
Definition models_call (req : Request) : Target * RequestInit :=
  (Resolve (str "/openai/v1/models") PathMirror.UPSTREAM_ORIGIN,
   {| init_method := str "GET";
      init_headers := Spec.outbound_of req plain_env;
      init_body := None |}).

Definition preflight : Request := request "OPTIONS" chat_completions [] None.

Definition health_preflight : Request := request "OPTIONS" "/health" [] None.

(** A network whose every answer is [u]. *)
Definition always (u : Response) : Network := fun _ _ => Some u.

(** An upstream answer that already varies on the origin. *)
Definition varying_answer : Response :=
  {| status := 200;
     headers := [(str "Vary", str "Origin")];
     body := Some (Stream (str "{}")) |}.

Definition plain_answer : Response :=
  {| status := 200; headers := []; body := Some (Stream (str "{}")) |}.

(** Upstream answers of the fixed-endpoint worker. *)
Definition no_content : Response := {| status := 204; headers := []; body := None |}.

Definition unauthorized : Response :=
  {| status := 401; headers := []; body := Some (Stream (str "bad key")) |}.

Definition chat_post (b : jsstring) : Request := request "POST" "/chat" [] (text b).

End Examples.

(** * Further behaviour of the two workers

    Vocabulary for the properties that follow the claims. *)

Module Behaviour.
Import JS Json Http Spec Examples.

(** A string without the separator of [csv]. *)
Definition comma_free (x : jsstring) : Prop := ~ In (ch ",") x.

(** The names [withCORS] writes under. *)
Definition cors_name (name : jsstring) : bool :=
  name_eqb ACAO name || name_eqb ACAH name || name_eqb ACAM name
  || name_eqb (str "Vary") name.

(** The body of the outbound call of the path-mirroring worker, for a
    request that is proxied: nothing unless the method is POST; the parsed
    body serialised again when the POST is read as JSON; the request's own
    stream otherwise. *)
Definition forwarded_body (req : Request) : option BodyInit :=
  if str_eqb (method req) (str "POST") then
    if inspects_json req
    then option_map (fun json => OfString (JSON_stringify json)) (body_json req)
    else option_map OfStream (req_body req)
  else None.

(** The headers of the responses the fixed-endpoint worker builds. *)
Definition preflight_headers : Headers :=
  [ (str "Access-Control-Allow-Origin", FixedEndpoint.CORS_ORIGIN);
    (str "Access-Control-Allow-Headers", str "Content-Type, Authorization");
    (str "Access-Control-Allow-Methods", str "POST, OPTIONS");
    (str "Access-Control-Max-Age", str "86400") ].

Definition json_answer_headers : Headers :=
  [ (str "Content-Type", str "application/json");
    (str "Access-Control-Allow-Origin", FixedEndpoint.CORS_ORIGIN);
    (str "Access-Control-Allow-Headers", str "Content-Type, Authorization");
    (str "Access-Control-Allow-Methods", str "POST, OPTIONS") ].

Definition event_stream_headers : Headers :=
  [ (str "Content-Type", str "text/event-stream");
    (str "Cache-Control", str "no-cache");
    (str "Connection", str "keep-alive");
    (str "Access-Control-Allow-Origin", FixedEndpoint.CORS_ORIGIN);
    (str "Access-Control-Allow-Headers", str "Content-Type, Authorization");
    (str "Access-Control-Allow-Methods", str "POST, OPTIONS") ].

Definition chat_call_headers (env : FixedEndpoint.Env) : Headers :=
  [ (str "Authorization", str "Bearer " ++ FixedEndpoint.GROQ_API_KEY env);
    (str "Content-Type", str "application/json") ].

(** The keys of the payload the fixed-endpoint worker sends, in order. *)
Definition payload_keys : list jsstring :=
  [ str "model"; str "temperature"; str "top_p"; str "stream";
    str "max_completion_tokens"; str "messages" ].

(** The body of a POST to [/chat] is accepted: it parses and its [user] is
    a string that is not empty. *)
Definition accepted_chat (request : Request) (parsed : JSON) (user : jsstring) : Prop :=
  FixedEndpoint.json_of_request request = Some parsed /\
  get_prop parsed (str "user") = Some (JStr user) /\
  user <> [].

(** A field of the body, or its default when the body has none. *)
Definition field_or (parsed : JSON) (k : string) (d : JSON) : JSON :=
  match get_prop parsed (str k) with Some v => v | None => d end.

Definition chat_messages (parsed : JSON) (user : jsstring) : JSON :=
  JArr [ JObj [ (str "role", JStr (str "system"));
                (str "content",
                 field_or parsed "system" (JStr (str "You are a helpful assistant."))) ];
         JObj [ (str "role", JStr (str "user")); (str "content", JStr user) ] ].

(** The conditions under which the path-mirroring worker gets past each of
    its own throw sites: the origin, the path and the credential are ones
    the runtime accepts, the request's headers are legal and its body can
    be read. *)
Definition servable (url_parses : jsstring -> jsstring -> bool) (req : Request)
  (env : PathMirror.Env) : Prop :=
  answerable req env /\ forwardable url_parses req env /\
  legal_request req /\ readable req.

(** Further requests and answers. *)
Definition multipart_post : Request :=
  request "POST" "/openai/v1/audio/transcriptions"
    [(str "Content-Type", str "multipart/form-data; boundary=x")]
    (text (str "--x--")).

Definition audio_env : PathMirror.Env :=
  environment (str "gsk_test") (Some (str "llama-3.1-8b-instant"))
    (Some (str "/openai/v1/audio")) None.

Definition created_answer : Response :=
  {| status := 201;
     headers := [ (str "Content-Type", str "application/json");
                  (str "X-Request-Id", str "r1");
                  (str "Access-Control-Allow-Origin", str "https://upstream.example") ];
     body := Some (Stream (str "{}")) |}.

Definition put_models : Request :=
  request "PUT" "/openai/v1/models" json_type (text (str "{}")).

(** A chat request that brings headers of its own, and the call the
    fixed-endpoint worker makes for it. *)
Definition own_headers_chat_post : Request :=
  request "POST" "/chat"
    [(str "Authorization", str "Bearer stolen"); (str "X-Trace", str "1")]
    (text user_hi).

Definition hi_call : RequestInit :=
  {| init_method := str "POST";
     init_headers := chat_call_headers chat_env;
     init_body :=
       Some (OfString
               (JSON_stringify
                  (JObj (FixedEndpoint.payload_of
                           (JStr (str "You are a helpful assistant."))
                           (JStr (str "hi"))
                           (JStr (str "llama-3.1-8b-instant"))
                           (JNum (num_of_Z 1)) (JNum (num_of_Z 1024))
                           (JNum (num_of_Z 1)) None)))) |}.

(** A POST whose numbers binary64 does not hold: an integer beyond 2^53 and
    a decimal beyond the largest finite value. *)
Definition big_numbers : jsstring :=
  str "{" ++ quote (str "n") ++ str ":12345678901234567890,"
  ++ quote (str "big") ++ str ":1e400}".

Definition big_numbers_post : Request :=
  request "POST" chat_completions json_type (text big_numbers).

(** A chat request whose numbers binary64 does not hold. *)
Definition big_numbers_chat : jsstring :=
  str "{" ++ quote (str "user") ++ str ":" ++ quote (str "hi") ++ str ","
  ++ quote (str "max_tokens") ++ str ":1e400,"
  ++ quote (str "top_p") ++ str ":9007199254740993}".

(** A network that is down. *)
Definition unreachable : Network := fun _ _ => None.

End Behaviour.

(** * Properties *)

Import JS Json Http Spec Examples Behaviour.
Unset Implicit Arguments.

(** ** Strings and arrays *)

Lemma str_eqb_eq (a b : jsstring) : str_eqb a b = true <-> a = b.
Proof.
  revert b; induction a as [|x a IH]; intros [|y b]; simpl; split;
    try congruence; try reflexivity.
  - intros H. apply andb_true_iff in H as [Hx Hr].
    apply N.eqb_eq in Hx. apply IH in Hr. congruence.
  - intros H. injection H as -> ->. rewrite N.eqb_refl. simpl.
    now apply IH.
Qed.

Lemma str_eqb_refl (a : jsstring) : str_eqb a a = true.
Proof. now apply str_eqb_eq. Qed.

Lemma str_eqb_neq (a b : jsstring) : str_eqb a b = false <-> a <> b.
Proof.
  split.
  - intros H E. apply str_eqb_eq in E. congruence.
  - intros H. destruct (str_eqb a b) eqn:E; [|reflexivity].
    apply str_eqb_eq in E. contradiction.
Qed.

Lemma arr_includes_In (l : list jsstring) (x : jsstring) :
  arr_includes l x = true <-> In x l.
Proof.
  unfold arr_includes. rewrite existsb_exists. split.
  - intros (y & Hy & E). apply str_eqb_eq in E. now subst.
  - intros H. exists x. split; [assumption | apply str_eqb_refl].
Qed.

Lemma startsWith_prefix (s p : jsstring) :
  startsWith s p = true <-> exists rest, s = p ++ rest.
Proof.
  revert s; induction p as [|x p IH]; intros s; simpl.
  - split; [intros _; now exists s | reflexivity].
  - destruct s as [|y s].
    + split; [discriminate | intros (r & E); discriminate].
    + rewrite andb_true_iff, N.eqb_eq, IH. split.
      * intros (-> & r & ->). now exists r.
      * intros (r & E). injection E as -> ->. split; [reflexivity | now exists r].
Qed.

Lemma truthy_str_nonempty (s : jsstring) : truthy_str s = true <-> s <> [].
Proof. destruct s; simpl; split; congruence. Qed.

Lemma nonempty_false {A : Type} (l : list A) :
  PathMirror.nonempty l = false <-> l = [].
Proof. destruct l; unfold PathMirror.nonempty; simpl; split; congruence. Qed.


(** [csv] never yields an empty entry: [filter(Boolean)] drops them. *)
Lemma csv_entries_nonempty (s : option jsstring) (x : jsstring) :
  In x (PathMirror.csv s) -> truthy_str x = true.
Proof. unfold PathMirror.csv. intros H. now apply filter_In in H. Qed.

(** Every entry of [csv] is the trimmed form of a comma-separated field. *)
Lemma csv_entries_trimmed (s : option jsstring) (x : jsstring) :
  In x (PathMirror.csv s) ->
  exists field,
    In field (split (ch ",") (match s with Some v => v | None => [] end)) /\
    x = trim field.
Proof.
  unfold PathMirror.csv. intros H. apply filter_In in H as [H _].
  apply in_map_iff in H as (f & E & Hf). now exists f.
Qed.

(** ** [trim], [split] and the entries of [csv] *)

Lemma trimStart_suffix (s : jsstring) :
  exists p, s = p ++ trimStart s /\ forallb is_js_space p = true.
Proof.
  induction s as [|c s IH]; simpl.
  - now exists [].
  - destruct (is_js_space c) eqn:E.
    + destruct IH as (p & Hp & Hall). exists (c :: p). simpl.
      rewrite E, Hall. split; [now f_equal | reflexivity].
    + now exists [].
Qed.

Lemma trimStart_head (s : jsstring) (c : N) (r : jsstring) :
  trimStart s = c :: r -> is_js_space c = false.
Proof.
  induction s as [|x s IH]; simpl; [discriminate|].
  destruct (is_js_space x) eqn:E; [exact IH|]. now intros [= <- _].
Qed.

Lemma trimStart_fixed (s : jsstring) :
  match s with [] => True | c :: _ => is_js_space c = false end ->
  trimStart s = s.
Proof. destruct s as [|c s]; simpl; [reflexivity|]. now intros ->. Qed.

Lemma trimStart_idempotent (s : jsstring) : trimStart (trimStart s) = trimStart s.
Proof.
  apply trimStart_fixed. destruct (trimStart s) as [|c r] eqn:E; [exact I|].
  exact (trimStart_head s c r E).
Qed.

Lemma trimEnd_prefix (s : jsstring) : exists q, s = trimEnd s ++ q.
Proof.
  unfold trimEnd. destruct (trimStart_suffix (rev s)) as (p & Hp & _).
  exists (rev p). rewrite <- rev_app_distr, <- Hp. now rewrite rev_involutive.
Qed.

Lemma trimEnd_idempotent (s : jsstring) : trimEnd (trimEnd s) = trimEnd s.
Proof. unfold trimEnd. now rewrite rev_involutive, trimStart_idempotent. Qed.

(** [trim] leaves a trimmed string as it is. *)
Lemma trim_idempotent (s : jsstring) : trim (trim s) = trim s.
Proof.
  unfold trim. set (t := trimStart s).
  assert (Hstart : trimStart (trimEnd t) = trimEnd t).
  { apply trimStart_fixed. destruct (trimEnd t) as [|c r] eqn:E; [exact I|].
    destruct (trimEnd_prefix t) as (q & Hq). rewrite E in Hq. simpl in Hq.
    apply (trimStart_head s c (r ++ q)). exact Hq. }
  rewrite Hstart. apply trimEnd_idempotent.
Qed.

Lemma trimStart_incl (s : jsstring) (c : N) : In c (trimStart s) -> In c s.
Proof.
  destruct (trimStart_suffix s) as (p & Hp & _). intros H. rewrite Hp.
  apply in_or_app. now right.
Qed.

Lemma trim_incl (s : jsstring) (c : N) : In c (trim s) -> In c s.
Proof.
  unfold trim. intros H. apply trimStart_incl.
  destruct (trimEnd_prefix (trimStart s)) as (q & Hq). rewrite Hq.
  apply in_or_app. now left.
Qed.

Lemma split_nonempty (sep : N) (s : jsstring) : split sep s <> [].
Proof.
  destruct s as [|c s]; simpl; [discriminate|].
  destruct (N.eqb c sep); [discriminate|]. destruct (split sep s); discriminate.
Qed.

(** No field that [split] yields holds the separator. *)
Lemma split_fields_free (sep : N) (s f : jsstring) :
  In f (split sep s) -> ~ In sep f.
Proof.
  revert f. induction s as [|c s IH]; simpl; intros f Hf.
  - destruct Hf as [<-|[]]. now intros [].
  - destruct (N.eqb_spec c sep) as [->|Hne].
    + destruct Hf as [<-|Hf]; [now intros [] | now apply IH].
    + destruct (split sep s) as [|h t] eqn:E.
      * destruct Hf as [<-|[]]. intros [H|[]]. congruence.
      * destruct Hf as [<-|Hf].
        -- intros [H|H]; [congruence|]. apply (IH h); [now left | exact H].
        -- apply IH. now right.
Qed.

Lemma split_free (sep : N) (x : jsstring) : ~ In sep x -> split sep x = [x].
Proof.
  induction x as [|c x IH]; simpl; intros H; [reflexivity|].
  destruct (N.eqb_spec c sep) as [->|Hne]; [exfalso; apply H; now left|].
  rewrite IH by (intros Hx; apply H; now right). reflexivity.
Qed.

Lemma split_app_sep (sep : N) (x rest : jsstring) :
  ~ In sep x -> split sep (x ++ sep :: rest) = x :: split sep rest.
Proof.
  induction x as [|c x IH]; simpl; intros H.
  - now rewrite N.eqb_refl.
  - destruct (N.eqb_spec c sep) as [->|Hne]; [exfalso; apply H; now left|].
    rewrite IH by (intros Hx; apply H; now right). reflexivity.
Qed.

(** Splitting what [join] put together gives the fields back. *)
Lemma split_join (sep : N) (l : list jsstring) :
  l <> [] -> Forall (fun x => ~ In sep x) l -> split sep (join [sep] l) = l.
Proof.
  induction l as [|x l IH]; intros Hne Hall; [congruence|].
  inversion Hall as [|? ? Hx Hl]; subst.
  destruct l as [|y l].
  - simpl. now apply split_free.
  - change (join [sep] (x :: y :: l)) with (x ++ sep :: join [sep] (y :: l)).
    rewrite split_app_sep by assumption.
    rewrite IH by (assumption || discriminate). reflexivity.
Qed.

Lemma csv_entry (s : option jsstring) (x : jsstring) :
  In x (PathMirror.csv s) -> x <> [] /\ trim x = x /\ comma_free x.
Proof.
  intros H. split; [|split].
  - apply truthy_str_nonempty. exact (csv_entries_nonempty s x H).
  - destruct (csv_entries_trimmed s x H) as (f & _ & ->). apply trim_idempotent.
  - destruct (csv_entries_trimmed s x H) as (f & Hf & ->).
    intros Hin. apply trim_incl in Hin. exact (split_fields_free _ _ f Hf Hin).
Qed.

(** ** JSON numbers and texts *)

(** The parser and the serialiser on small texts. *)
Example parse_numbers :
  option_map JSON_stringify
    (JSON_parse (str " [ 0, -0, 1.0, 2.50, -3e2, 1E+2, 1e21, 1e-7, 0.000001, true, null ] "))
  = Some (str "[0,0,1,2.5,-300,100,1e+21,1e-7,0.000001,true,null]").
Proof. vm_compute. reflexivity. Qed.

(** Numbers are rounded to binary64 when read and written with the fewest
    digits that read back: an integer beyond [2^53] loses its last digits, a
    decimal beyond the largest finite value becomes an infinity and is
    written [null], one below the smallest becomes zero. *)
Example parse_rounds :
  option_map JSON_stringify
    (JSON_parse (str "[12345678901234567890,9007199254740993,1e400,-1e400,0.1,4.35,5e-324,2e-324]"))
  = Some (str "[12345678901234567000,9007199254740992,null,null,0.1,4.35,5e-324,0]").
Proof. vm_compute. reflexivity. Qed.

Example integers_are_exact :
  map num_of_Z [0; 1; 1024; 401; -3; 9007199254740992]%Z
  = [ Finite false 0 0; Finite false 1 0; Finite false 1 10; Finite false 401 0;
      Finite true 3 0; Finite false 1 53 ].
Proof. vm_compute. reflexivity. Qed.

Example parse_object :
  JSON_parse (one_field "user" "hi") = Some (JObj [(str "user", JStr (str "hi"))]).
Proof. reflexivity. Qed.

Example parse_rejects :
  map JSON_parse
    [ str ""; str "not json"; str "[1,]"; str "01"; str "1."; str "[1 2]";
      str "{a:1}"; str "nulltrue"; str "[" ]
  = repeat None 9.
Proof. reflexivity. Qed.

Example csv_splits_and_trims :
  PathMirror.csv (Some (str " a , b,, c ,")) = [str "a"; str "b"; str "c"].
Proof. reflexivity. Qed.

(** ** Header lists *)

Lemma name_eqb_refl (a : jsstring) : name_eqb a a = true.
Proof. apply str_eqb_refl. Qed.

Lemma name_eqb_sym (a b : jsstring) : name_eqb a b = name_eqb b a.
Proof.
  unfold name_eqb. destruct (str_eqb (map lower b) (map lower a)) eqn:E.
  - apply str_eqb_eq in E. rewrite E. apply str_eqb_refl.
  - apply str_eqb_neq. apply str_eqb_neq in E. congruence.
Qed.

Lemma name_eqb_trans (a b c : jsstring) :
  name_eqb a b = true -> name_eqb b c = true -> name_eqb a c = true.
Proof.
  unfold name_eqb. rewrite !str_eqb_eq. congruence.
Qed.

(** Two names that differ cannot both name the same entry. *)
Lemma named_apart (n m : jsstring) (kv : jsstring * jsstring) :
  name_eqb n m = false -> named n kv = true -> named m kv = false.
Proof.
  unfold named. intros Hnm Hn. destruct (name_eqb m (fst kv)) eqn:Hm; [|reflexivity].
  rewrite name_eqb_sym in Hm.
  rewrite (name_eqb_trans _ _ _ Hn Hm) in Hnm. discriminate.
Qed.

Lemma h_values_delete_same (h : Headers) (n : jsstring) :
  h_values (h_delete h n) n = [].
Proof.
  unfold h_values, h_delete. induction h as [|kv h IH]; simpl; [reflexivity|].
  destruct (named n kv) eqn:E; simpl; [assumption|]. now rewrite E.
Qed.

Lemma h_values_delete_other (h : Headers) (n m : jsstring) :
  name_eqb n m = false -> h_values (h_delete h n) m = h_values h m.
Proof.
  intros Hnm. unfold h_values, h_delete. induction h as [|kv h IH]; simpl; [reflexivity|].
  destruct (named n kv) eqn:E; simpl.
  - rewrite (named_apart _ _ _ Hnm E). assumption.
  - destruct (named m kv); simpl; now rewrite IH.
Qed.

Lemma h_values_set_same (h : Headers) (n v : jsstring) :
  h_values (entries_set h n v) n = [v].
Proof.
  induction h as [|kv h IH]; simpl.
  - unfold h_values. simpl. unfold named. simpl. now rewrite name_eqb_refl.
  - destruct (named n kv) eqn:E.
    + unfold h_values. simpl. unfold named at 1. simpl. unfold named in E. rewrite E.
      simpl. f_equal. apply h_values_delete_same.
    + unfold h_values in *. simpl. now rewrite E.
Qed.

Lemma h_values_set_other (h : Headers) (n m v : jsstring) :
  name_eqb n m = false -> h_values (entries_set h n v) m = h_values h m.
Proof.
  intros Hnm. induction h as [|kv h IH]; simpl.
  - unfold h_values. simpl. unfold named. simpl. rewrite name_eqb_sym, Hnm. reflexivity.
  - destruct (named n kv) eqn:E.
    + pose proof (named_apart _ _ _ Hnm E) as Hm.
      unfold h_values at 2. simpl. rewrite Hm.
      unfold h_values at 1. simpl. unfold named at 1. simpl.
      unfold named in Hm. rewrite Hm.
      apply h_values_delete_other; assumption.
    + unfold h_values in *. simpl. destruct (named m kv); simpl; now rewrite IH.
Qed.

Lemma h_values_append_same (h : Headers) (n v : jsstring) :
  h_values (entries_append h n v) n = h_values h n ++ [v].
Proof.
  unfold h_values, entries_append. rewrite filter_app, map_app. simpl.
  unfold named at 2. simpl. now rewrite name_eqb_refl.
Qed.

Lemma h_values_append_other (h : Headers) (n m v : jsstring) :
  name_eqb n m = false -> h_values (entries_append h n v) m = h_values h m.
Proof.
  intros Hnm. unfold h_values, entries_append. rewrite filter_app, map_app. simpl.
  unfold named at 2. simpl. rewrite name_eqb_sym, Hnm. simpl. apply app_nil_r.
Qed.

Lemma h_get_single (h : Headers) (n v : jsstring) :
  h_values h n = [v] -> h_get h n = Some v.
Proof. unfold h_get. now intros ->. Qed.

Lemma h_get_none (h : Headers) (n : jsstring) :
  h_values h n = [] <-> h_get h n = None.
Proof. unfold h_get. destruct (h_values h n); split; congruence. Qed.

Lemma h_get_values (h h' : Headers) (n : jsstring) :
  h_values h n = h_values h' n -> h_get h n = h_get h' n.
Proof. unfold h_get. now intros ->. Qed.

(** ** Header values *)

Lemma http_space_is_js_space (c : N) :
  is_http_space c = true -> is_js_space c = true.
Proof.
  unfold is_http_space. rewrite !orb_true_iff, !N.eqb_eq.
  intros [[[->| ->]| ->]| ->]; reflexivity.
Qed.

Lemma strip_start_suffix (s : jsstring) : exists p, s = p ++ strip_start s.
Proof.
  induction s as [|c s IH]; simpl.
  - now exists [].
  - destruct (is_http_space c).
    + destruct IH as (p & Hp). exists (c :: p). simpl. now f_equal.
    + now exists [].
Qed.

(** A normalised value is a piece of the value it comes from. *)
Lemma normalize_infix (s : jsstring) : exists p q, s = p ++ normalize s ++ q.
Proof.
  unfold normalize. destruct (strip_start_suffix s) as (p & Hp).
  destruct (strip_start_suffix (rev (strip_start s))) as (q & Hq).
  exists p, (rev q). rewrite <- rev_app_distr, <- Hq, rev_involutive. exact Hp.
Qed.

Lemma forallb_normalize (P : N -> bool) (s : jsstring) :
  forallb P s = true -> forallb P (normalize s) = true.
Proof.
  destruct (normalize_infix s) as (p & q & E). intros H. rewrite E in H.
  rewrite !forallb_app, !andb_true_iff in H. tauto.
Qed.

(** A string that [trim] leaves alone has no white space at either end. *)
Lemma trimStart_trim (s : jsstring) : trimStart (trim s) = trim s.
Proof.
  unfold trim. set (t := trimStart s).
  apply trimStart_fixed. destruct (trimEnd t) as [|c r] eqn:E; [exact I|].
  destruct (trimEnd_prefix t) as (q & Hq). rewrite E in Hq. simpl in Hq.
  apply (trimStart_head s c (r ++ q)). exact Hq.
Qed.

Lemma trimStart_strip_start (s : jsstring) : trimStart s = s -> strip_start s = s.
Proof.
  destruct s as [|c r]; [reflexivity|]. intros H.
  pose proof (trimStart_head (c :: r) c r H) as Hc. simpl.
  destruct (is_http_space c) eqn:E; [|reflexivity].
  apply http_space_is_js_space in E. congruence.
Qed.

(** What [trim] leaves alone, [Headers.set] stores as it is given: the white
    space of HTTP is part of that of ECMAScript. *)
Lemma trimmed_normal (x : jsstring) : trim x = x -> normalize x = x.
Proof.
  intros H.
  assert (Hs : trimStart x = x) by (rewrite <- H; apply trimStart_trim).
  assert (He : trimStart (rev x) = rev x).
  { assert (Hx : trimEnd x = x).
    { rewrite <- H. unfold trim. apply trimEnd_idempotent. }
    unfold trimEnd in Hx. apply (f_equal (@rev N)) in Hx.
    now rewrite rev_involutive in Hx. }
  unfold normalize. rewrite (trimStart_strip_start x Hs).
  rewrite (trimStart_strip_start (rev x) He). apply rev_involutive.
Qed.

Lemma header_value_some (v w : jsstring) : header_value v = Some w -> w = normalize v.
Proof.
  unfold header_value. destruct (forallb _ v); [|discriminate].
  destruct (forallb is_value_unit (normalize v)); congruence.
Qed.

(** [Headers.set] accepts a value made of legal code units. *)
Lemma header_value_legal (v : jsstring) :
  forallb is_value_unit v = true -> header_value v = Some (normalize v).
Proof.
  intros H. unfold header_value.
  assert (Hb : forallb (fun c => (c <=? 255)%N) v = true).
  { apply forallb_forall. intros c Hc.
    pose proof (proj1 (forallb_forall _ _) H c Hc) as Hu.
    unfold is_value_unit in Hu. apply andb_true_iff in Hu. tauto. }
  now rewrite Hb, (forallb_normalize _ _ H).
Qed.

Lemma header_value_normal (v : jsstring) :
  normalize v = v -> accepted v -> header_value v = Some v.
Proof.
  intros Hn Ha. destruct (header_value v) as [w|] eqn:E; [|now destruct Ha].
  apply header_value_some in E. congruence.
Qed.

Lemma accepted_value (v : jsstring) :
  accepted v -> header_value v = Some (normalize v).
Proof.
  intros Ha. destruct (header_value v) as [w|] eqn:E; [|now destruct Ha].
  apply header_value_some in E. congruence.
Qed.

Lemma h_set_valid (h : Headers) (name v : jsstring) :
  is_header_name name = true ->
  h_set h name v = option_map (entries_set h name) (header_value v).
Proof. intros H. unfold h_set. rewrite H. now destruct (header_value v). Qed.

Lemma h_append_valid (h : Headers) (name v : jsstring) :
  is_header_name name = true ->
  h_append h name v = option_map (entries_append h name) (header_value v).
Proof. intros H. unfold h_append. rewrite H. now destruct (header_value v). Qed.

(** ** [includes] and normalised values *)

Lemma includes_unfold (s n : jsstring) :
  includes s n
  = startsWith s n || match s with [] => false | _ :: r => includes r n end.
Proof. now destruct s. Qed.

Lemma includes_spec (s n : jsstring) :
  includes s n = true <-> exists pre post, s = pre ++ n ++ post.
Proof.
  split.
  - induction s as [|c s IH]; rewrite includes_unfold, orb_true_iff.
    + intros [H|H]; [|discriminate].
      apply startsWith_prefix in H as (r & E). now exists [], r.
    + intros [H|H].
      * apply startsWith_prefix in H as (r & E). now exists [], r.
      * destruct (IH H) as (pre & post & E). exists (c :: pre), post.
        simpl. now f_equal.
  - intros (pre & post & ->). induction pre as [|c pre IH].
    + rewrite includes_unfold, orb_true_iff. left.
      apply startsWith_prefix. now exists post.
    + simpl app. rewrite includes_unfold, orb_true_iff. now right.
Qed.

(** Stripping the front keeps a piece that starts with something else than
    white space. *)
Lemma strip_start_keeps (pre n post : jsstring) :
  match n with [] => False | a :: _ => is_http_space a = false end ->
  exists pre', strip_start (pre ++ n ++ post) = pre' ++ n ++ post.
Proof.
  intros Hn. induction pre as [|c pre IH].
  - exists []. destruct n as [|a n']; [contradiction|]. simpl. now rewrite Hn.
  - simpl. destruct (is_http_space c).
    + exact IH.
    + now exists (c :: pre).
Qed.

(** A needle without white space at its ends is found in a value exactly
    when it is found in the normalised value. *)
Lemma includes_normalize (s n : jsstring) :
  match n with [] => False | a :: _ => is_http_space a = false end ->
  match rev n with [] => False | a :: _ => is_http_space a = false end ->
  includes (normalize s) n = includes s n.
Proof.
  intros Hhead Hlast.
  destruct (includes s n) eqn:E.
  - apply includes_spec in E as (pre & post & ->). apply includes_spec.
    unfold normalize.
    destruct (strip_start_keeps pre n post Hhead) as (pre' & ->).
    rewrite !rev_app_distr. rewrite <- app_assoc.
    destruct (strip_start_keeps (rev post) (rev n) (rev pre') Hlast) as (post' & ->).
    rewrite !rev_app_distr, !rev_involutive. rewrite <- app_assoc.
    now exists pre', (rev post').
  - destruct (includes (normalize s) n) eqn:E'; [|reflexivity].
    apply includes_spec in E' as (pre & post & E').
    destruct (normalize_infix s) as (p & q & Hs).
    assert (H : includes s n = true).
    { apply includes_spec. exists (p ++ pre), (post ++ q).
      rewrite Hs at 1. rewrite E'. now rewrite <- !app_assoc. }
    congruence.
Qed.

Lemma includes_json_normalize (ct : jsstring) :
  includes (normalize ct) (str "application/json")
  = includes ct (str "application/json").
Proof. apply includes_normalize; reflexivity. Qed.

(** ** Legal header lists *)

Lemma forallb_join (P : N -> bool) (sep : jsstring) (l : list jsstring) :
  forallb P sep = true -> Forall (fun x => forallb P x = true) l ->
  forallb P (join sep l) = true.
Proof.
  intros Hsep. induction l as [|x l IH]; intros Hall; [reflexivity|].
  inversion Hall as [|? ? Hx Hl]; subst.
  destruct l as [|y l]; [exact Hx|].
  change (join sep (x :: y :: l)) with (x ++ sep ++ join sep (y :: l)).
  rewrite !forallb_app, Hx, Hsep. now rewrite IH.
Qed.

Lemma legal_get (h : Headers) (name v : jsstring) :
  legal_headers h -> h_get h name = Some v -> forallb is_value_unit v = true.
Proof.
  intros Hh. unfold h_get.
  assert (Hall : Forall (fun x => forallb is_value_unit x = true) (h_values h name)).
  { apply Forall_forall. intros x Hx. unfold h_values in Hx.
    apply in_map_iff in Hx as (kv & <- & Hkv). apply filter_In in Hkv as [Hkv _].
    exact (proj1 (Forall_forall _ _) Hh kv Hkv). }
  destruct (h_values h name) as [|x l] eqn:E; [discriminate|].
  intros [= <-]. exact (forallb_join is_value_unit (str ", ") (x :: l) eq_refl Hall).
Qed.

(** ** Responses *)

Lemma new_Response_null (st : Z) (h : Headers) :
  (200 <= st <= 599)%Z ->
  new_Response None st h = Some {| status := st; headers := h; body := None |}.
Proof.
  intros Hst. unfold new_Response.
  destruct (Z.ltb_spec st 200); [lia|]. destruct (Z.ltb_spec 599 st); [lia|].
  reflexivity.
Qed.

Lemma new_Response_stream (b : option Body) (st : Z) (h : Headers) :
  (200 <= st <= 599)%Z ->
  (b <> None -> null_body_status st = false) ->
  new_Response (option_map OfStream b) st h
  = Some {| status := st; headers := h; body := b |}.
Proof.
  intros Hst Hnull. destruct b as [x|]; [|now apply new_Response_null].
  unfold new_Response. simpl.
  destruct (Z.ltb_spec st 200); [lia|]. destruct (Z.ltb_spec 599 st); [lia|].
  simpl. now rewrite Hnull.
Qed.

Lemma new_Response_string (s : jsstring) (st : Z) (h : Headers) :
  admits_body st ->
  new_Response (Some (OfString s)) st h
  = Some {| status := st;
            headers := if h_has h (str "Content-Type") then h
                       else entries_append h (str "content-type")
                              (str "text/plain;charset=UTF-8");
            body := Some (Stream s) |}.
Proof.
  intros [Hst Hnull]. unfold new_Response.
  destruct (Z.ltb_spec st 200); [lia|]. destruct (Z.ltb_spec 599 st); [lia|].
  simpl. now rewrite Hnull.
Qed.

Lemma from_network_well_formed (r : Response) : from_network r -> well_formed r.
Proof.
  intros [Hst Hnull]. split; [assumption|].
  intros Hb. destruct (null_body_status (status r)); [|reflexivity].
  now specialize (Hnull eq_refl).
Qed.

Lemma new_Response_well_formed (b : option BodyInit) (st : Z) (h : Headers) (r : Response) :
  new_Response b st h = Some r -> well_formed r /\ status r = st.
Proof.
  unfold new_Response, well_formed.
  destruct (Z.ltb_spec st 200); simpl; [discriminate|].
  destruct (Z.ltb_spec 599 st); simpl; [discriminate|].
  destruct b as [[s|x]|].
  - destruct (null_body_status st) eqn:E; [discriminate|].
    intros [= <-]. simpl. repeat split; try lia. now intros _.
  - destruct (null_body_status st) eqn:E; [discriminate|].
    intros [= <-]. simpl. repeat split; try lia. now intros _.
  - intros [= <-]. simpl. repeat split; try lia. congruence.
Qed.

Lemma new_Response_stream_inv (b : option Body) (st : Z) (h : Headers) (r : Response) :
  new_Response (option_map OfStream b) st h = Some r ->
  r = {| status := st; headers := h; body := b |} /\ well_formed r.
Proof.
  intros E. destruct (new_Response_well_formed _ _ _ _ E) as [Hwf _].
  split; [|exact Hwf]. revert E. unfold new_Response.
  destruct ((st <? 200)%Z || (599 <? st)%Z); [discriminate|].
  destruct b as [x|]; simpl.
  - destruct (null_body_status st); [discriminate | congruence].
  - congruence.
Qed.

(** ** [withCORS] *)

Lemma cors_literals :
  header_value (str "Content-Type, Authorization")
  = Some (str "Content-Type, Authorization") /\
  header_value (str "GET, POST, OPTIONS") = Some (str "GET, POST, OPTIONS") /\
  header_value (str "Origin") = Some (str "Origin").
Proof. split; [reflexivity|]. split; reflexivity. Qed.

(** [withCORS] throws exactly when [Headers.set] refuses the origin or the
    constructor refuses the response; it stores the origin normalised and
    decides on [Vary] by the origin as given. *)
Lemma withCORS_spec (res : Response) (origin : jsstring) :
  PathMirror.withCORS res origin
  = and_then (header_value origin)
      (fun o => new_Response (option_map OfStream (body res)) (status res)
                  (cors_entries (headers res) o (negb (str_eqb origin (str "*"))))).
Proof.
  destruct cors_literals as (H1 & H2 & H3).
  unfold PathMirror.withCORS. cbv zeta.
  rewrite h_set_valid by reflexivity.
  destruct (header_value origin) as [o|]; [|reflexivity].
  cbn [option_map and_then].
  rewrite h_set_valid, H1 by reflexivity. cbn [option_map and_then].
  rewrite h_set_valid, H2 by reflexivity. cbn [option_map and_then].
  unfold cors_entries.
  destruct (negb (str_eqb origin (str "*"))); [|reflexivity].
  rewrite h_append_valid, H3 by reflexivity. reflexivity.
Qed.

Lemma withCORS_refused (res : Response) (origin : jsstring) :
  header_value origin = None -> PathMirror.withCORS res origin = None.
Proof. intros H. now rewrite withCORS_spec, H. Qed.

Lemma withCORS_well_formed (res : Response) (origin : jsstring) :
  header_value origin = Some origin -> well_formed res ->
  PathMirror.withCORS res origin
  = Some {| status := status res;
            headers := cors_headers (headers res) origin;
            body := body res |}.
Proof.
  intros Ho [Hst Hnull]. rewrite withCORS_spec, Ho. cbn [and_then].
  now apply new_Response_stream.
Qed.

(** What [withCORS] leaves under the three CORS names. *)
Lemma cors_entries_values (h : Headers) (stored : jsstring) (vary : bool) :
  h_values (cors_entries h stored vary) ACAO = [stored] /\
  h_values (cors_entries h stored vary) ACAH = [str "Content-Type, Authorization"] /\
  h_values (cors_entries h stored vary) ACAM = [str "GET, POST, OPTIONS"].
Proof.
  unfold cors_entries.
  destruct vary;
    (split; [|split]);
    repeat first
      [ rewrite h_values_append_other by reflexivity
      | rewrite h_values_set_same
      | rewrite h_values_set_other by reflexivity ];
    reflexivity.
Qed.

Lemma cors_headers_values (h : Headers) (origin : jsstring) :
  h_values (cors_headers h origin) ACAO = [origin] /\
  h_values (cors_headers h origin) ACAH = [str "Content-Type, Authorization"] /\
  h_values (cors_headers h origin) ACAM = [str "GET, POST, OPTIONS"].
Proof. apply cors_entries_values. Qed.

(** Names other than the CORS ones and [Vary] are left as they were. *)
Lemma cors_entries_other (h : Headers) (stored name : jsstring) (vary : bool) :
  name_eqb ACAO name = false -> name_eqb ACAH name = false ->
  name_eqb ACAM name = false -> name_eqb (str "Vary") name = false ->
  h_values (cors_entries h stored vary) name = h_values h name.
Proof.
  intros H1 H2 H3 H4. unfold cors_entries.
  destruct vary;
    repeat first
      [ rewrite h_values_append_other by assumption
      | rewrite h_values_set_other by assumption ];
    reflexivity.
Qed.

Lemma cors_headers_other (h : Headers) (origin name : jsstring) :
  name_eqb ACAO name = false -> name_eqb ACAH name = false ->
  name_eqb ACAM name = false -> name_eqb (str "Vary") name = false ->
  h_values (cors_headers h origin) name = h_values h name.
Proof. apply cors_entries_other. Qed.

Lemma cors_headers_vary (h : Headers) (origin : jsstring) :
  h_values (cors_headers h origin) (str "Vary")
  = h_values h (str "Vary")
    ++ (if str_eqb origin (str "*") then [] else [str "Origin"]).
Proof.
  unfold cors_headers, cors_entries.
  destruct (str_eqb origin (str "*")); simpl negb; cbv iota.
  - rewrite !h_values_set_other by reflexivity. now rewrite app_nil_r.
  - rewrite h_values_append_same. now rewrite !h_values_set_other by reflexivity.
Qed.

Lemma has_entry_cors_vary (h : Headers) (origin : jsstring) :
  has_entry (cors_headers h origin) (str "Vary") (str "Origin") = true
  <-> origin <> str "*" \/ has_entry h (str "Vary") (str "Origin") = true.
Proof.
  unfold has_entry. rewrite cors_headers_vary, !arr_includes_In, in_app_iff.
  destruct (str_eqb origin (str "*")) eqn:E.
  - apply str_eqb_eq in E. simpl. intuition congruence.
  - apply str_eqb_neq in E. simpl. intuition.
Qed.

Lemma delivered_accepted (origin : jsstring) (r : Response) :
  accepted origin -> delivered origin r = Ret r.
Proof.
  unfold accepted, delivered. destruct (header_value origin); [reflexivity | congruence].
Qed.

Lemma delivered_refused (origin : jsstring) (r : Response) :
  header_value origin = None -> delivered origin r = Throw.
Proof. intros H. unfold delivered. now rewrite H. Qed.

Lemma delivered_cases (origin : jsstring) (r : Response) :
  delivered origin r = Ret r \/ delivered origin r = Throw.
Proof. unfold delivered. destruct (header_value origin); [now left | now right]. Qed.

(** ** The helpers of the path-mirroring worker *)

(** [allowedPath] decides membership in the path allowlist by prefix. *)
Lemma allowedPath_spec (path : jsstring) (env : PathMirror.Env) :
  PathMirror.allowedPath path env = true <-> path_allowed path env.
Proof.
  unfold PathMirror.allowedPath, path_allowed, path_allowlist.
  destruct (PathMirror.csv (PathMirror.ALLOW_PATHS env)) as [|x l];
    [ change (PathMirror.nonempty (@nil jsstring)) with false
    | change (PathMirror.nonempty (x :: l)) with true ];
    cbv iota; rewrite existsb_exists; split.
  1, 3: intros (p & Hp & Hm); exists p; (split; [assumption|]);
        apply orb_true_iff in Hm as [Hm|Hm];
        [ left; now apply str_eqb_eq | right; now apply startsWith_prefix ].
  all: intros (p & Hp & [Hm|Hm]); exists p; (split; [assumption|]);
       apply orb_true_iff;
       [ left; now apply str_eqb_eq | right; now apply startsWith_prefix ].
Qed.

Lemma allowedPath_false (path : jsstring) (env : PathMirror.Env) :
  PathMirror.allowedPath path env = false <-> ~ path_allowed path env.
Proof.
  rewrite <- allowedPath_spec. destruct (PathMirror.allowedPath path env);
    split; congruence.
Qed.

(** [pickOrigin] computes the origin the specification resolves. *)
Lemma pickOrigin_spec (req : Request) (env : PathMirror.Env) :
  PathMirror.pickOrigin req env = resolved_origin req env.
Proof.
  unfold PathMirror.pickOrigin, resolved_origin.
  pose proof (csv_entries_nonempty (PathMirror.CORS_ORIGINS env)) as Hne.
  destruct (PathMirror.csv (PathMirror.CORS_ORIGINS env)) as [|first rest];
    [reflexivity|].
  change (PathMirror.nonempty (first :: rest)) with true. cbv iota.
  change (hd_error (first :: rest)) with (Some first). cbv iota beta.
  rewrite (Hne first) by now left.
  destruct (h_get (req_headers req) (str "Origin")) as [o|]; [|reflexivity].
  destruct (arr_includes (first :: rest) o) eqn:E.
  - apply arr_includes_In in E. now rewrite (Hne o E).
  - now rewrite andb_false_r.
Qed.

(** The expression that reads the model is the trimmed [model] field. *)
Lemma requested_model_spec (json : JSON) :
  PathMirror.requested_model json = model_field json.
Proof.
  unfold PathMirror.requested_model, model_field.
  destruct json as [|b|n|s|l|o]; try reflexivity.
  - unfold has_prop, get_prop.
    destruct (obj_get o (str "model")) as [[|b|n|s|l|o']|]; reflexivity.
Qed.

(** The origin the worker resolves is the wildcard or an entry of [csv]:
    [Headers.set] stores it as it is. *)
Lemma resolved_origin_normal (req : Request) (env : PathMirror.Env) :
  normalize (resolved_origin req env) = resolved_origin req env.
Proof.
  unfold resolved_origin.
  pose proof (csv_entry (PathMirror.CORS_ORIGINS env)) as Hentry.
  destruct (PathMirror.csv (PathMirror.CORS_ORIGINS env)) as [|first rest];
    [reflexivity|].
  assert (Hin : In (match h_get (req_headers req) (str "Origin") with
                    | Some o => if arr_includes (first :: rest) o then o else first
                    | None => first
                    end) (first :: rest)).
  { destruct (h_get (req_headers req) (str "Origin")) as [o|]; [|now left].
    destruct (arr_includes (first :: rest) o) eqn:E; [|now left].
    now apply arr_includes_In. }
  apply trimmed_normal. now destruct (Hentry _ Hin) as (_ & H & _).
Qed.

Lemma resolved_origin_stored (req : Request) (env : PathMirror.Env) :
  answerable req env ->
  header_value (resolved_origin req env) = Some (resolved_origin req env).
Proof. intros H. apply header_value_normal; [apply resolved_origin_normal | exact H]. Qed.

Lemma path_allowed_dec (path : jsstring) (env : PathMirror.Env) :
  path_allowed path env \/ ~ path_allowed path env.
Proof.
  destruct (PathMirror.allowedPath path env) eqn:E.
  - left. now apply allowedPath_spec.
  - right. now apply allowedPath_false.
Qed.

(** ** The path-mirroring handler, case by case *)

Section MirrorCases.
Variable parses : jsstring -> jsstring -> bool.
Variables (req : Request) (env : PathMirror.Env).

Let origin := resolved_origin req env.

Local Open Scope eff_scope.

Lemma json_record_headers : h_of_record PathMirror.json_record = Some json_headers.
Proof. reflexivity. Qed.

(** A response wrapped by [withCORS] is delivered when the origin is
    accepted, and the handler rejects when it is not. *)
Lemma withCORS_delivered (res : Response) (o : jsstring) :
  normalize o = o -> well_formed res ->
  try (PathMirror.withCORS res o)
  = delivered o (answer (status res) (headers res) (body res) o).
Proof.
  intros Hn Hwf. unfold delivered. destruct (header_value o) as [w|] eqn:E.
  - assert (Hw : w = o) by (apply header_value_some in E; congruence). subst w.
    now rewrite (withCORS_well_formed res o E Hwf).
  - now rewrite (withCORS_refused res o E).
Qed.

Lemma respond_with_text (s : jsstring) (st : Z) (h : Headers) (o : jsstring) :
  normalize o = o -> admits_body st ->
  (res <- try (new_Response (Some (OfString s)) st h) ;;
   try (PathMirror.withCORS res o))
  = delivered o (answer st (if h_has h (str "Content-Type") then h
                            else entries_append h (str "content-type")
                                   (str "text/plain;charset=UTF-8"))
                   (Some (Stream s)) o).
Proof.
  intros Hn Hst. rewrite (new_Response_string s st h Hst). cbn [try bind].
  rewrite withCORS_delivered; [reflexivity | exact Hn |].
  destruct Hst as [Hst Hnull]. split; simpl; [assumption | now intros _].
Qed.

Lemma respond_with_json (s : jsstring) (st : Z) (o : jsstring) :
  normalize o = o -> admits_body st ->
  (h <- try (h_of_record PathMirror.json_record) ;;
   res <- try (new_Response (Some (OfString s)) st h) ;;
   try (PathMirror.withCORS res o))
  = delivered o (answer st json_headers (Some (Stream s)) o).
Proof.
  intros Hn Hst. rewrite json_record_headers. cbn [try bind].
  now rewrite respond_with_text.
Qed.

Lemma fetch_health :
  on_path req "/health" ->
  PathMirror.fetch parses req env
  = delivered origin
      (answer 200 json_headers
         (Some (Stream (JSON_stringify (JObj [(str "ok", JBool true)])))) origin).
Proof.
  intros Hp. unfold PathMirror.fetch. rewrite Hp, str_eqb_refl, pickOrigin_spec.
  rewrite respond_with_json; [reflexivity | apply resolved_origin_normal |].
  split; [lia | reflexivity].
Qed.

Lemma fetch_preflight :
  ~ on_path req "/health" -> is_method req "OPTIONS" ->
  PathMirror.fetch parses req env = delivered origin (answer 204 [] None origin).
Proof.
  intros Hp Hm. unfold PathMirror.fetch.
  apply str_eqb_neq in Hp. rewrite Hp, Hm, str_eqb_refl, pickOrigin_spec.
  change (new_Response None 204 [])
    with (Some {| status := 204; headers := []; body := None |}).
  cbn [try bind].
  rewrite withCORS_delivered; [reflexivity | apply resolved_origin_normal |].
  split; simpl; [lia | congruence].
Qed.

Lemma fetch_not_found :
  ~ on_path req "/health" -> ~ is_method req "OPTIONS" ->
  ~ path_allowed (pathname (url req)) env ->
  PathMirror.fetch parses req env
  = delivered origin (answer 404 text_plain (Some (Stream (str "Not found"))) origin).
Proof.
  intros Hp Hm Ha. unfold PathMirror.fetch.
  apply str_eqb_neq in Hp, Hm. apply allowedPath_false in Ha.
  rewrite Hp, Hm, Ha, pickOrigin_spec. simpl negb. cbv iota.
  rewrite respond_with_text; [reflexivity | apply resolved_origin_normal |].
  split; [lia | reflexivity].
Qed.

(** The outbound headers: the credential replaces whatever stood under
    [Authorization], [Host] goes, and [Content-Type] is kept unless it is
    missing or empty; both values are stored normalised. *)
Lemma or_else_content_type (a : jsstring) :
  PathMirror.or_else
    (h_get (entries_set (req_headers req) (str "Authorization") a) (str "Content-Type"))
    (str "application/json")
  = content_type_if_nonempty req.
Proof.
  unfold content_type_if_nonempty, PathMirror.or_else.
  rewrite (h_get_values (entries_set (req_headers req) (str "Authorization") a)
             (req_headers req)) by (apply h_values_set_other; reflexivity).
  destruct (h_get (req_headers req) (str "Content-Type")) as [[|c ct]|]; reflexivity.
Qed.

Lemma upstream_headers_spec :
  PathMirror.upstream_headers req env
  = and_then (header_value (bearer env))
      (fun a => and_then (header_value (content_type_if_nonempty req))
                  (fun c => Some (outbound req a c))).
Proof.
  unfold PathMirror.upstream_headers, bearer. cbv zeta.
  rewrite h_set_valid by reflexivity.
  destruct (header_value (str "Bearer " ++ PathMirror.GROQ_API_KEY env)) as [a|];
    [|reflexivity].
  cbn [option_map and_then]. rewrite h_set_valid by reflexivity.
  rewrite or_else_content_type.
  now destruct (header_value (content_type_if_nonempty req)).
Qed.

Lemma upstream_headers_accepted :
  accepted (bearer env) -> accepted (content_type_if_nonempty req) ->
  PathMirror.upstream_headers req env = Some (outbound_of req env).
Proof.
  intros Hk Hc. rewrite upstream_headers_spec.
  now rewrite (accepted_value _ Hk), (accepted_value _ Hc).
Qed.

Lemma upstream_headers_some (hs : Headers) :
  PathMirror.upstream_headers req env = Some hs ->
  accepted (bearer env) /\ accepted (content_type_if_nonempty req) /\
  hs = outbound_of req env.
Proof.
  rewrite upstream_headers_spec. unfold accepted, outbound_of.
  destruct (header_value (bearer env)) as [a|] eqn:Ea; [|discriminate].
  destruct (header_value (content_type_if_nonempty req)) as [c|] eqn:Ec; [|discriminate].
  apply header_value_some in Ea, Ec. subst a c. cbn [and_then].
  intros [= <-]. repeat split; discriminate.
Qed.

Lemma outbound_authorization (a c : jsstring) :
  h_values (outbound req a c) (str "Authorization") = [a].
Proof.
  unfold outbound.
  rewrite h_values_delete_other by reflexivity.
  rewrite h_values_set_other by reflexivity.
  apply h_values_set_same.
Qed.

Lemma outbound_host (a c : jsstring) : h_values (outbound req a c) (str "Host") = [].
Proof. unfold outbound. apply h_values_delete_same. Qed.

Lemma outbound_content_type (a c : jsstring) :
  h_values (outbound req a c) (str "Content-Type") = [c].
Proof.
  unfold outbound. rewrite h_values_delete_other by reflexivity.
  apply h_values_set_same.
Qed.

Lemma forwarded_content_type (a c : jsstring) :
  PathMirror.or_else (h_get (outbound req a c) (str "Content-Type")) [] = c.
Proof.
  rewrite (h_get_single _ _ _ (outbound_content_type a c)).
  now destruct c.
Qed.

(** The values of a request the platform delivers are accepted when set
    again. *)
Lemma content_type_accepted :
  legal_request req -> accepted (content_type_if_nonempty req).
Proof.
  intros Hreq. unfold accepted, content_type_if_nonempty.
  destruct (h_get (req_headers req) (str "Content-Type")) as [[|c ct]|] eqn:E;
    try discriminate.
  rewrite (header_value_legal _ (legal_get _ _ _ Hreq E)). discriminate.
Qed.


(** The model check lets a request through exactly when the allowlist is
    empty or holds the requested model. *)
Lemma model_check_passes (m : jsstring) :
  let L := model_allowlist env in
  PathMirror.nonempty L
  && (negb (truthy_str m) || negb (arr_includes L m)) = false
  <-> L = [] \/ In m L.
Proof.
  intros L. split.
  - intros H. apply andb_false_iff in H as [H|H].
    + left. now apply nonempty_false.
    + right. apply orb_false_iff in H as [_ H].
      apply negb_false_iff in H. now apply arr_includes_In.
  - intros [H|H].
    + apply andb_false_iff. left. now apply nonempty_false.
    + apply andb_false_iff. right. apply orb_false_iff. split.
      * apply negb_false_iff. exact (csv_entries_nonempty _ _ H).
      * apply negb_false_iff. now apply arr_includes_In.
Qed.

Section PastTheGate.
Hypothesis Hpath : ~ on_path req "/health".
Hypothesis Hmeth : ~ is_method req "OPTIONS".
Hypothesis Hallow : path_allowed (pathname (url req)) env.

(** The three throw sites between the gate and the payload check. *)
Lemma fetch_unparsable :
  parses (pathname (url req) ++ search (url req)) PathMirror.UPSTREAM_ORIGIN = false ->
  PathMirror.fetch parses req env = Throw.
Proof.
  intros Hurl. unfold PathMirror.fetch.
  apply str_eqb_neq in Hpath, Hmeth. apply allowedPath_spec in Hallow.
  rewrite Hpath, Hmeth, Hallow. simpl negb. cbv iota.
  unfold new_URL. now rewrite Hurl.
Qed.

Lemma fetch_unaccepted :
  PathMirror.upstream_headers req env = None ->
  PathMirror.fetch parses req env = Throw.
Proof.
  intros Hhs. unfold PathMirror.fetch.
  apply str_eqb_neq in Hpath, Hmeth. apply allowedPath_spec in Hallow.
  rewrite Hpath, Hmeth, Hallow. simpl negb. cbv iota.
  unfold new_URL.
  destruct (parses (pathname (url req) ++ search (url req)) PathMirror.UPSTREAM_ORIGIN);
    [|reflexivity].
  cbn [try bind]. now rewrite Hhs.
Qed.

Hypothesis Hurl :
  parses (pathname (url req) ++ search (url req)) PathMirror.UPSTREAM_ORIGIN = true.
Hypothesis Hkey : accepted (bearer env).
Hypothesis Htype : accepted (content_type_if_nonempty req).

Lemma fetch_past_gate :
  PathMirror.fetch parses req env
  = if str_eqb (method req) (str "POST") then
      if inspects_json req then
        match text_of_request req with
        | None => Throw
        | Some raw =>
            match PathMirror.parse_body raw with
            | None =>
                delivered origin
                  (answer 400 json_headers (error_body invalid_json) origin)
            | Some json =>
                if PathMirror.nonempty (model_allowlist env)
                   && (negb (truthy_str (model_field json))
                       || negb (arr_includes (model_allowlist env) (model_field json)))
                then delivered origin
                       (answer 403 json_headers
                          (error_body (model_not_allowed (model_allowlist env))) origin)
                else PathMirror.proxy req (mirror_target req) (outbound_of req env) origin
                       (Some (OfString (JSON_stringify json)))
            end
        end
      else PathMirror.proxy req (mirror_target req) (outbound_of req env) origin
             (option_map OfStream (req_body req))
    else PathMirror.proxy req (mirror_target req) (outbound_of req env) origin None.
Proof.
  unfold PathMirror.fetch.
  apply str_eqb_neq in Hpath, Hmeth. apply allowedPath_spec in Hallow.
  rewrite Hpath, Hmeth, Hallow, pickOrigin_spec. simpl negb. cbv iota.
  unfold new_URL. rewrite Hurl. cbn [try bind].
  rewrite (upstream_headers_accepted Hkey Htype). cbn [try bind].
  fold (mirror_target req).
  destruct (str_eqb (method req) (str "POST")); [|reflexivity].
  unfold outbound_of at 1. rewrite forwarded_content_type. fold (inspects_json req).
  destruct (inspects_json req); [|reflexivity].
  destruct (text_of_request req) as [raw|]; [|reflexivity]. cbn [try bind].
  destruct (PathMirror.parse_body raw) as [json|].
  - rewrite requested_model_spec. fold (model_allowlist env).
    destruct (PathMirror.nonempty (model_allowlist env)
              && (negb (truthy_str (model_field json))
                  || negb (arr_includes (model_allowlist env) (model_field json))));
      [|reflexivity].
    rewrite respond_with_json; [reflexivity | apply resolved_origin_normal |].
    split; [lia | reflexivity].
  - rewrite respond_with_json; [reflexivity | apply resolved_origin_normal |].
    split; [lia | reflexivity].
Qed.

End PastTheGate.

(** The handler rejects on its own, or resolves on its own with a response
    that [withCORS] built from headers without [Vary], or hands over to
    [proxy] with the address and the headers of the outbound call. *)
Lemma fetch_outcomes :
  PathMirror.fetch parses req env = Throw \/
  (exists st h b, PathMirror.fetch parses req env = Ret (answer st h b origin)
                  /\ h_values h (str "Vary") = []) \/
  (exists b, PathMirror.fetch parses req env
             = PathMirror.proxy req (mirror_target req) (outbound_of req env) origin b).
Proof.
  assert (Hlocal : forall st h b,
            h_values h (str "Vary") = [] ->
            PathMirror.fetch parses req env = delivered origin (answer st h b origin) ->
            PathMirror.fetch parses req env = Throw \/
            (exists st h b, PathMirror.fetch parses req env = Ret (answer st h b origin)
                            /\ h_values h (str "Vary") = []) \/
            (exists b, PathMirror.fetch parses req env
                       = PathMirror.proxy req (mirror_target req) (outbound_of req env)
                           origin b)).
  { intros st h b Hv E. rewrite E.
    destruct (delivered_cases origin (answer st h b origin)) as [-> | ->];
      [right; left; now exists st, h, b | now left]. }
  destruct (str_eqb (pathname (url req)) (str "/health")) eqn:Ehealth.
  { apply str_eqb_eq in Ehealth. eapply Hlocal; [|now apply fetch_health]. reflexivity. }
  apply str_eqb_neq in Ehealth.
  destruct (str_eqb (method req) (str "OPTIONS")) eqn:Eopt.
  { apply str_eqb_eq in Eopt. eapply Hlocal; [|now apply fetch_preflight]. reflexivity. }
  apply str_eqb_neq in Eopt.
  destruct (path_allowed_dec (pathname (url req)) env) as [Ha|Ha].
  2: { eapply Hlocal; [|now apply fetch_not_found]. reflexivity. }
  destruct (parses (pathname (url req) ++ search (url req)) PathMirror.UPSTREAM_ORIGIN)
    eqn:Eurl.
  2: { left. now apply fetch_unparsable. }
  destruct (PathMirror.upstream_headers req env) as [hs|] eqn:Ehs.
  2: { left. now apply fetch_unaccepted. }
  apply upstream_headers_some in Ehs as (Hk & Hc & _).
  pose proof (fetch_past_gate Ehealth Eopt Ha Eurl Hk Hc) as E.
  destruct (str_eqb (method req) (str "POST")); [|right; right; eexists; exact E].
  destruct (inspects_json req); [|right; right; eexists; exact E].
  destruct (text_of_request req) as [raw|]; [|now left].
  destruct (PathMirror.parse_body raw) as [json|].
  - destruct (PathMirror.nonempty (model_allowlist env)
              && (negb (truthy_str (model_field json))
                  || negb (arr_includes (model_allowlist env) (model_field json)))).
    + eapply Hlocal; [|exact E]. reflexivity.
    + right; right; eexists; exact E.
  - eapply Hlocal; [|exact E]. reflexivity.
Qed.

End MirrorCases.

Lemma contacts_delivered (o : jsstring) (r : Response) :
  contacts_upstream (delivered o r) = false.
Proof. unfold delivered. now destruct (header_value o). Qed.

Lemma delivered_ret (o : jsstring) (r r' : Response) :
  delivered o r = Ret r' -> r' = r.
Proof. unfold delivered. destruct (header_value o); congruence. Qed.

Lemma post_is_not_options (req : Request) :
  is_method req "POST" -> ~ is_method req "OPTIONS".
Proof. unfold is_method. intros -> H. discriminate. Qed.

(** * The claims *)

(** ** Preflight *)

(** C6, as amended: in the path-mirroring worker every request with method
    OPTIONS whose path is not [/health], under a configuration whose
    resolved origin [Headers.set] accepts, is answered with status 204, no
    body and the CORS headers, and the upstream is not contacted (the
    handler resolves without a call). *)
Theorem preflight_outside_health (parses : jsstring -> jsstring -> bool)
  (req : Request) (env : PathMirror.Env) :
  is_method req "OPTIONS" -> ~ on_path req "/health" -> answerable req env ->
  preflight_answer parses req env.
Proof.
  intros Hm Hp Ho. exists (answer 204 [] None (resolved_origin req env)).
  split; [rewrite (fetch_preflight parses req env Hp Hm); now apply delivered_accepted|].
  split; [reflexivity|]. split; [reflexivity|].
  apply cors_headers_values.
Qed.

Lemma preflight_outside_health_witness :
  preflight_answer no_authority preflight plain_env.
Proof.
  apply preflight_outside_health;
    [reflexivity | discriminate | vm_compute; discriminate].
Defined.

(** C6, as stated, fails on [/health]: the health check comes first, so an
    OPTIONS request to it is answered with status 200 and a body.  It also
    fails under an origin allowlist with an entry that is no header value
    (two origins on two lines): [withCORS] throws and the handler
    rejects. *)
Lemma preflight_on_health :
  (is_method health_preflight "OPTIONS" /\
   forall parses, ~ preflight_answer parses health_preflight plain_env) /\
  (is_method preflight "OPTIONS" /\
   forall parses, PathMirror.fetch parses preflight two_lines_env = Throw /\
                  ~ preflight_answer parses preflight two_lines_env).
Proof.
  split.
  - split; [reflexivity|].
    intros parses (r & Hr & Hst & _).
    rewrite fetch_health in Hr by reflexivity.
    apply delivered_ret in Hr. subst r. discriminate.
  - split; [reflexivity|]. intros parses.
    assert (E : PathMirror.fetch parses preflight two_lines_env = Throw).
    { rewrite fetch_preflight by (reflexivity || discriminate).
      now apply delivered_refused. }
    split; [exact E|]. intros (r & Hr & _). congruence.
Qed.

(** ** The model allowlist *)




(** ** The path allowlist *)

Section PayloadCheck.
Variable parses : jsstring -> jsstring -> bool.
Variables (req : Request) (env : PathMirror.Env).
Hypothesis Hpath : ~ on_path req "/health".
Hypothesis Hmeth : ~ is_method req "OPTIONS".
Hypothesis Hallow : path_allowed (pathname (url req)) env.
Hypothesis Hreq : legal_request req.
Hypothesis Hread : readable req.
Hypothesis Hfwd : forwardable parses req env.

(** Past the gate, and past the throw sites, the worker calls the upstream
    unless the payload check finds the body invalid or refuses the model;
    it answers these two with 400 and 403. *)
Lemma payload_check :
  (contacts_upstream (PathMirror.fetch parses req env) = true
   <-> ~ invalid_body req /\ ~ model_refused req env) /\
  (answerable req env -> invalid_body req ->
   exists r, PathMirror.fetch parses req env = Ret r /\ status r = 400%Z) /\
  (answerable req env -> model_refused req env ->
   exists r, PathMirror.fetch parses req env = Ret r /\ status r = 403%Z).
Proof.
  destruct Hfwd as [Hurl Hkey].
  pose proof (fetch_past_gate parses req env Hpath Hmeth Hallow Hurl Hkey
                (content_type_accepted req Hreq)) as E.
  unfold invalid_body, model_refused, is_method, body_json, readable in *.
  destruct (str_eqb (method req) (str "POST")) eqn:Epost.
  2: { apply str_eqb_neq in Epost. rewrite E. split; [|split].
       - split; [intros _; split; intros (H & _); contradiction | reflexivity].
       - intros _ (H & _). contradiction.
       - intros _ (H & _). contradiction. }
  apply str_eqb_eq in Epost.
  destruct (inspects_json req).
  2: { rewrite E. split; [|split].
       - split; [intros _; split; intros (_ & H & _); discriminate | reflexivity].
       - intros _ (_ & H & _). discriminate.
       - intros _ (_ & H & _). discriminate. }
  destruct (text_of_request req) as [raw|]; [clear Hread | now destruct Hread].
  cbn [and_then].
  destruct (PathMirror.parse_body raw) as [json|] eqn:Eparse.
  - pose proof (model_check_passes env (model_field json)) as Hcheck.
    cbv zeta in Hcheck.
    destruct (PathMirror.nonempty (model_allowlist env)
              && (negb (truthy_str (model_field json))
                  || negb (arr_includes (model_allowlist env) (model_field json))));
      rewrite E; clear E.
    + assert (Hno : ~ (model_allowlist env = []
                       \/ In (model_field json) (model_allowlist env))).
      { intros H. apply Hcheck in H. discriminate. }
      split; [|split].
      * rewrite contacts_delivered. split; [discriminate|].
        intros [_ H]. exfalso. apply H.
        split; [exact Epost|]. split; [reflexivity|]. now exists json.
      * intros _ (_ & _ & raw' & [= <-] & H). congruence.
      * intros Ho _. eexists. split; [now apply delivered_accepted | reflexivity].
    + assert (Hyes : model_allowlist env = []
                     \/ In (model_field json) (model_allowlist env))
        by now apply Hcheck.
      split; [|split].
      * split; [|reflexivity]. intros _. split.
        -- intros (_ & _ & raw' & [= <-] & H). congruence.
        -- intros (_ & _ & json' & [= <-] & H). contradiction.
      * intros _ (_ & _ & raw' & [= <-] & H). congruence.
      * intros _ (_ & _ & json' & [= <-] & H). contradiction.
  - rewrite E; clear E. split; [|split].
    + rewrite contacts_delivered. split; [discriminate|].
      intros [H _]. exfalso. apply H.
      split; [exact Epost|]. split; [reflexivity|]. now exists raw.
    + intros Ho _. eexists. split; [now apply delivered_accepted | reflexivity].
    + intros _ (_ & _ & json' & H & _). discriminate.
Qed.

End PayloadCheck.

(** Off the path allowlist the upstream is not contacted. *)
Lemma stray_path_not_contacted (parses : jsstring -> jsstring -> bool)
  (req : Request) (env : PathMirror.Env) :
  ~ is_method req "OPTIONS" -> ~ on_path req "/health" ->
  ~ path_allowed (pathname (url req)) env ->
  contacts_upstream (PathMirror.fetch parses req env) = false.
Proof.
  intros Hm Hp Ha. rewrite (fetch_not_found parses req env Hp Hm Ha).
  apply contacts_delivered.
Qed.

(** C3, as amended: in the path-mirroring worker, for every non-OPTIONS
    request whose path is not [/health]: the upstream is contacted only if
    the path equals or starts with a member of the path allowlist (the
    configured ALLOW_PATHS list if non-empty, otherwise the four defaults).
    On such a path, when the handler gets past its throw sites (the path and
    the credential are accepted, the body can be read), the request is
    proxied exactly when the payload check does not turn it down: a POST
    read as JSON whose body does not parse is answered 400, one whose model
    is outside a non-empty model allowlist is answered 403.  A request on
    any other path is answered 404.  The answers are given when the
    resolved origin is accepted. *)
Theorem path_gate_before_payload (parses : jsstring -> jsstring -> bool)
  (req : Request) (env : PathMirror.Env) :
  ~ is_method req "OPTIONS" -> ~ on_path req "/health" ->
  path_gate_then_payload parses req env.
Proof.
  intros Hm Hp. unfold path_gate_then_payload.
  split; [|split].
  - destruct (path_allowed_dec (pathname (url req)) env) as [Ha|Ha];
      [intros _; exact Ha|].
    rewrite (stray_path_not_contacted parses req env Hm Hp Ha). discriminate.
  - intros Ha Hreq Hread Hfwd.
    exact (payload_check parses req env Hp Hm Ha Hreq Hread Hfwd).
  - intros Ha Ho. eexists.
    split; [rewrite (fetch_not_found parses req env Hp Hm Ha);
            now apply delivered_accepted|].
    reflexivity.
Qed.

Lemma path_gate_before_payload_witness :
  path_gate_then_payload no_authority not_json_post plain_env.
Proof.
  apply path_gate_before_payload; discriminate.
Defined.

(** C3, as stated, fails for a POST on an allowed path whose JSON body does
    not parse: the path is allowed and nothing is proxied.  It also fails
    where the handler rejects: the 404 under an origin that is no header
    value, the proxying of a path that [new URL] refuses or under a
    credential with a line feed inside. *)
Lemma path_gate_on_invalid_json :
  (~ is_method not_json_post "OPTIONS" /\
   ~ on_path not_json_post "/health" /\
   forall parses, ~ path_gate parses not_json_post plain_env) /\
  (~ is_method stray_empty_post "OPTIONS" /\
   ~ on_path stray_empty_post "/health" /\
   forall parses, ~ path_gate parses stray_empty_post two_lines_env) /\
  (~ is_method bracket_get "OPTIONS" /\
   ~ on_path bracket_get "/health" /\
   forall parses, parses (str "//[") PathMirror.UPSTREAM_ORIGIN = false ->
                  ~ path_gate parses bracket_get any_path_env) /\
  (~ is_method models_get "OPTIONS" /\
   ~ on_path models_get "/health" /\
   forall parses, ~ path_gate parses models_get broken_key_env).
Proof.
  split; [|split; [|split]]; (split; [discriminate|]); (split; [discriminate|]).
  - intros parses [[_ Hfwd] _].
    assert (H : contacts_upstream (PathMirror.fetch parses not_json_post plain_env) = true)
      by (apply Hfwd, allowedPath_spec; reflexivity).
    vm_compute in H.
    match type of H with context [parses ?a ?b] => destruct (parses a b) end;
      discriminate.
  - intros parses [_ H]. destruct H as (r & Hr & _).
    { intros Ha. apply allowedPath_spec in Ha. discriminate. }
    vm_compute in Hr. discriminate.
  - intros parses Hurl [[_ Hfwd] _].
    assert (H : contacts_upstream (PathMirror.fetch parses bracket_get any_path_env) = true)
      by (apply Hfwd, allowedPath_spec; reflexivity).
    rewrite fetch_unparsable in H;
      [discriminate | discriminate | discriminate
      | apply allowedPath_spec; reflexivity | exact Hurl].
  - intros parses [[_ Hfwd] _].
    assert (H : contacts_upstream (PathMirror.fetch parses models_get broken_key_env) = true)
      by (apply Hfwd, allowedPath_spec; reflexivity).
    vm_compute in H.
    match type of H with context [parses ?a ?b] => destruct (parses a b) end;
      discriminate.
Qed.

(** With no POST the two stages coincide: past the throw sites the request
    is proxied iff its path is allowed. *)
Lemma path_gate_without_payload (parses : jsstring -> jsstring -> bool)
  (req : Request) (env : PathMirror.Env) :
  ~ is_method req "OPTIONS" -> ~ on_path req "/health" -> ~ is_method req "POST" ->
  legal_request req -> answerable req env -> forwardable parses req env ->
  path_gate parses req env.
Proof.
  intros Hm Hp Hpost Hreq Ho [Hurl Hkey]. unfold path_gate.
  destruct (path_allowed_dec (pathname (url req)) env) as [Ha|Ha].
  - split; [|contradiction]. split; [intros _; exact Ha|]. intros _.
    rewrite (fetch_past_gate parses req env Hp Hm Ha Hurl Hkey
               (content_type_accepted req Hreq)).
    apply str_eqb_neq in Hpost. now rewrite Hpost.
  - split.
    + rewrite (stray_path_not_contacted parses req env Hm Hp Ha).
      split; [discriminate | contradiction].
    + intros _. eexists.
      split; [rewrite (fetch_not_found parses req env Hp Hm Ha);
              now apply delivered_accepted|].
      reflexivity.
Qed.

(** ** The outbound call *)

Lemma proxied_init (parses : jsstring -> jsstring -> bool)
  (req : Request) (env : PathMirror.Env)
  (t : Target) (i : RequestInit) (k : Response -> Eff Response) :
  PathMirror.fetch parses req env = Fetch t i k ->
  t = mirror_target req /\
  init_method i = method req /\
  init_headers i = outbound_of req env.
Proof.
  intros E.
  destruct (fetch_outcomes parses req env) as [Hr|[(st & h & b & Hr & _)|[b Hb]]].
  - congruence.
  - congruence.
  - rewrite Hb in E. unfold PathMirror.proxy in E. injection E as <- <- _.
    repeat split.
Qed.

Lemma normalize_clean (s : jsstring) :
  starts_clean s -> ends_clean s -> normalize s = s.
Proof.
  unfold ends_clean, starts_clean, normalize. intros Hs He.
  assert (Hfront : forall x, match x with c :: _ => is_http_space c = false | [] => False end ->
                             strip_start x = x).
  { intros [|c r] H; [contradiction|]. simpl. now rewrite H. }
  rewrite (Hfront s Hs), (Hfront (rev s) He). apply rev_involutive.
Qed.

(** A credential that is not empty and does not end in white space makes a
    bearer token that is stored as it is. *)
Lemma bearer_stored (env : PathMirror.Env) :
  ends_clean (PathMirror.GROQ_API_KEY env) -> normalize (bearer env) = bearer env.
Proof.
  intros Hk. apply normalize_clean; [reflexivity|].
  unfold ends_clean, bearer in *. rewrite rev_app_distr.
  destruct (rev (PathMirror.GROQ_API_KEY env)) as [|c r]; [contradiction | exact Hk].
Qed.

(** C2, as amended: for every proxied request of the path-mirroring worker
    the outbound headers hold exactly one Authorization value, [Bearer]
    followed by the configured credential as [Headers.set] stores it (the
    HTTP white space at its end removed; the bearer token as it is for a
    credential that is not empty and ends in none), whatever the caller
    supplied; no Host; and as Content-Type the incoming one if it was set to
    a non-empty value, [application/json] otherwise (also when it was set
    and empty), stored in the same way (as it is when it has no HTTP white
    space at its ends). *)
Theorem outbound_headers_of_proxied (parses : jsstring -> jsstring -> bool)
  (req : Request) (env : PathMirror.Env)
  (t : Target) (i : RequestInit) (k : Response -> Eff Response) :
  PathMirror.fetch parses req env = Fetch t i k ->
  outbound_headers (normalize (bearer env)) (normalize (content_type_if_nonempty req)) i /\
  (ends_clean (PathMirror.GROQ_API_KEY env) -> normalize (bearer env) = bearer env) /\
  (starts_clean (content_type_if_nonempty req) ->
   ends_clean (content_type_if_nonempty req) ->
   normalize (content_type_if_nonempty req) = content_type_if_nonempty req).
Proof.
  intros E. apply proxied_init in E as (_ & _ & Eh).
  split; [|split; [apply bearer_stored | apply normalize_clean]].
  unfold outbound_headers. rewrite Eh. unfold outbound_of. split; [|split].
  - apply outbound_authorization.
  - apply outbound_host.
  - apply h_get_single, outbound_content_type.
Qed.

Lemma outbound_headers_of_proxied_witness :
  outbound_headers (str "Bearer gsk_test") (str "text/plain")
    {| init_method := str "GET";
       init_headers := outbound_of own_credentials_get plain_env;
       init_body := None |}.
Proof.
  refine (proj1 (outbound_headers_of_proxied no_authority own_credentials_get plain_env
                   _ _ _ _)).
  reflexivity.
Defined.

(** C2, as stated, fails for a Content-Type that is set and empty: the
    worker forwards [application/json] in its place.  It also fails for a
    credential that ends in a line feed: [Headers.set] stores the bearer
    token without it. *)
Lemma outbound_content_type_when_empty :
  (h_get (req_headers empty_type_get) (str "Content-Type") = Some [] /\
   forall parses,
     parses (str "/openai/v1/models") PathMirror.UPSTREAM_ORIGIN = true ->
     exists t i k,
       PathMirror.fetch parses empty_type_get plain_env = Fetch t i k /\
       ~ outbound_headers (bearer plain_env) (content_type_if_set empty_type_get) i) /\
  (bearer padded_key_env = str "Bearer gsk_test" ++ [10%N] /\
   forall parses,
     parses (str "/openai/v1/models") PathMirror.UPSTREAM_ORIGIN = true ->
     exists t i k,
       PathMirror.fetch parses models_get padded_key_env = Fetch t i k /\
       h_values (init_headers i) (str "Authorization") = [str "Bearer gsk_test"] /\
       ~ outbound_headers (bearer padded_key_env)
           (content_type_if_set models_get) i).
Proof.
  split; (split; [reflexivity|]); intros parses Hurl.
  - assert (E : PathMirror.fetch parses empty_type_get plain_env
                = PathMirror.proxy empty_type_get (mirror_target empty_type_get)
                    (outbound_of empty_type_get plain_env)
                    (resolved_origin empty_type_get plain_env) None).
    { rewrite fetch_past_gate;
        [reflexivity | discriminate | discriminate | apply allowedPath_spec; reflexivity
        | exact Hurl | vm_compute; discriminate | vm_compute; discriminate ]. }
    do 3 eexists. split; [exact E|].
    intros (_ & _ & H). vm_compute in H. discriminate.
  - assert (E : PathMirror.fetch parses models_get padded_key_env
                = PathMirror.proxy models_get (mirror_target models_get)
                    (outbound_of models_get padded_key_env)
                    (resolved_origin models_get padded_key_env) None).
    { rewrite fetch_past_gate;
        [reflexivity | discriminate | discriminate | apply allowedPath_spec; reflexivity
        | exact Hurl | vm_compute; discriminate | vm_compute; discriminate ]. }
    do 3 eexists. split; [exact E|]. split; [reflexivity|].
    intros (H & _). vm_compute in H. discriminate.
Qed.

(** The caller's own Authorization and Host are gone from the outbound
    headers. *)
Example own_credentials_replaced :
  PathMirror.upstream_headers own_credentials_get plain_env
  = Some [ (str "authorization", str "Bearer gsk_test");
           (str "Content-Type", str "text/plain") ].
Proof. reflexivity. Qed.

(** A credential that [Headers.set] refuses stops the handler before the
    upstream is called, whatever the parser accepts. *)
Example broken_credential_rejects (parses : jsstring -> jsstring -> bool) :
  PathMirror.fetch parses models_get broken_key_env = Throw.
Proof.
  apply fetch_unaccepted;
    [discriminate | discriminate | apply allowedPath_spec; reflexivity | reflexivity].
Qed.

(** ** The empty body *)

Lemma empty_text_is_empty_object (req : Request) :
  text_of_request req = Some [] -> body_json req = Some (JObj []).
Proof. unfold body_json. now intros ->. Qed.





(** ** The origin of the response *)

(** A run of [proxy] that resolves made one call and relays its answer
    under the CORS headers. *)
Lemma proxy_run (req : Request) (tgt : Target) (hs : Headers) (o : jsstring)
  (b : option BodyInit) (net : Network) (r : Response)
  (calls : list (Target * RequestInit)) :
  normalize o = o ->
  run net (PathMirror.proxy req tgt hs o b) = (Some r, calls) ->
  exists i u,
    calls = [(tgt, i)] /\ net tgt i = Some u /\
    r = answer (status u) (headers u) (body u) o.
Proof.
  intros Hn. unfold PathMirror.proxy. simpl run.
  match goal with |- context [net tgt ?i] => set (ini := i) end.
  destruct (net tgt ini) as [u|] eqn:Enet; [|discriminate].
  destruct (new_Response (option_map OfStream (body u)) (status u) (headers u))
    as [proxied|] eqn:Enew; cbn [try bind]; [|discriminate].
  apply new_Response_stream_inv in Enew as [-> Hwf].
  rewrite (withCORS_delivered _ o Hn Hwf). cbn [status headers body].
  destruct (delivered_cases o (answer (status u) (headers u) (body u) o)) as [-> | ->];
    simpl; [|discriminate].
  intros [= <- <-]. now exists ini, u.
Qed.

(** Against a network that always answers, with responses [fetch] can
    resolve with, the handler resolves once it is past its own throw sites:
    the origin, the path and the credential are accepted and the body can be
    read. *)
Lemma fetch_resolves (parses : jsstring -> jsstring -> bool)
  (req : Request) (env : PathMirror.Env) (net : Network) :
  servable parses req env ->
  (forall t i, exists u, net t i = Some u /\ from_network u) ->
  exists r calls, run net (PathMirror.fetch parses req env) = (Some r, calls).
Proof.
  intros (Ho & [Hurl Hkey] & Hreq & Hread) Hnet.
  assert (Hproxy : forall b,
            exists r calls,
              run net (PathMirror.proxy req (mirror_target req) (outbound_of req env)
                         (resolved_origin req env) b) = (Some r, calls)).
  { intros b. unfold PathMirror.proxy. simpl run.
    match goal with |- context [net ?t ?i] => destruct (Hnet t i) as (u & -> & Hu) end.
    apply from_network_well_formed in Hu.
    rewrite (new_Response_stream (body u) (status u) (headers u) (proj1 Hu) (proj2 Hu)).
    cbn [try bind].
    rewrite withCORS_delivered; [|apply resolved_origin_normal | exact Hu].
    rewrite (delivered_accepted _ _ Ho). now do 2 eexists. }
  assert (Hlocal : forall r,
            exists r' calls, run net (delivered (resolved_origin req env) r) = (Some r', calls)).
  { intros r. rewrite (delivered_accepted _ _ Ho). now do 2 eexists. }
  destruct (str_eqb (pathname (url req)) (str "/health")) eqn:Ehealth.
  { apply str_eqb_eq in Ehealth. rewrite (fetch_health parses req env Ehealth).
    apply Hlocal. }
  apply str_eqb_neq in Ehealth.
  destruct (str_eqb (method req) (str "OPTIONS")) eqn:Eopt.
  { apply str_eqb_eq in Eopt. rewrite (fetch_preflight parses req env Ehealth Eopt).
    apply Hlocal. }
  apply str_eqb_neq in Eopt.
  destruct (path_allowed_dec (pathname (url req)) env) as [Ha|Ha].
  2: { rewrite (fetch_not_found parses req env Ehealth Eopt Ha). apply Hlocal. }
  rewrite (fetch_past_gate parses req env Ehealth Eopt Ha Hurl Hkey
             (content_type_accepted req Hreq)).
  destruct (str_eqb (method req) (str "POST")); [|apply Hproxy].
  destruct (inspects_json req); [|apply Hproxy].
  unfold readable in Hread.
  destruct (text_of_request req) as [raw|]; [|now destruct Hread].
  destruct (PathMirror.parse_body raw) as [json|]; [|apply Hlocal].
  destruct (PathMirror.nonempty (model_allowlist env)
            && (negb (truthy_str (model_field json))
                || negb (arr_includes (model_allowlist env) (model_field json))));
    [apply Hlocal | apply Hproxy].
Qed.

(** C4, as amended: in the path-mirroring worker the response carries as
    Access-Control-Allow-Origin the request's Origin if the origin allowlist
    is non-empty and contains it, else the first entry of the allowlist if
    it is non-empty, else the wildcard; and it carries [Vary: Origin] iff
    the resolved origin is not the wildcard or the relayed upstream response
    already carried it. *)
Theorem cors_origin_of_response (parses : jsstring -> jsstring -> bool)
  (req : Request) (env : PathMirror.Env)
  (net : Network) (r : Response) (calls : list (Target * RequestInit)) :
  run net (PathMirror.fetch parses req env) = (Some r, calls) ->
  cors_resolution_relayed req env net calls r.
Proof.
  intros Hrun. unfold cors_resolution_relayed, varies_on_origin, upstream_varies.
  destruct (fetch_outcomes parses req env) as [E|[(st & h & b & E & Hvary)|[b E]]];
    rewrite E in Hrun.
  - discriminate.
  - injection Hrun as <- <-. simpl headers.
    split; [exact (proj1 (cors_headers_values _ _))|].
    rewrite has_entry_cors_vary. unfold has_entry at 1. rewrite Hvary. simpl.
    split.
    + intros [H|H]; [now left | discriminate].
    + intros [H|(t & i & u & [] & _)]. now left.
  - apply proxy_run in Hrun as (i & u & -> & Hnet & ->);
      [|apply resolved_origin_normal].
    simpl headers.
    split; [exact (proj1 (cors_headers_values _ _))|].
    rewrite has_entry_cors_vary. split.
    + intros [H|H]; [now left|]. right. exists (mirror_target req), i, u.
      split; [now left|]. now split.
    + intros [H|(t' & i' & u' & [[= <- <-]|[]] & Hnet' & Hv)]; [now left|].
      right. rewrite Hnet in Hnet'. injection Hnet' as <-. exact Hv.
Qed.

Lemma cors_origin_of_response_witness :
  cors_resolution_relayed evil_origin_get one_origin_env (always plain_answer)
    [models_call evil_origin_get]
    (answer 200 [] (Some (Stream (str "{}"))) (str "https://good.com")).
Proof.
  apply (cors_origin_of_response no_authority). reflexivity.
Defined.

(** C4, as stated, fails when the upstream response already varies on the
    origin: no allowlist is configured, the origin resolves to the wildcard,
    and the relayed response still carries [Vary: Origin]. *)
Lemma vary_from_upstream :
  resolved_origin models_get plain_env = str "*" /\
  forall parses,
    parses (str "/openai/v1/models") PathMirror.UPSTREAM_ORIGIN = true ->
    exists r calls,
      run (always varying_answer) (PathMirror.fetch parses models_get plain_env)
      = (Some r, calls) /\
      ~ cors_resolution models_get plain_env r.
Proof.
  split; [reflexivity|]. intros parses Hurl.
  assert (E : PathMirror.fetch parses models_get plain_env
              = PathMirror.proxy models_get (mirror_target models_get)
                  (outbound_of models_get plain_env)
                  (resolved_origin models_get plain_env) None).
  { rewrite fetch_past_gate;
      [reflexivity | discriminate | discriminate | apply allowedPath_spec; reflexivity
      | exact Hurl | vm_compute; discriminate | vm_compute; discriminate ]. }
  rewrite E. do 2 eexists. split; [reflexivity|].
  intros [_ [H _]]. apply H; reflexivity.
Qed.

(** * The fixed-endpoint worker *)

(** ** The reshaped payload *)

(** C7: in the fixed-endpoint worker a POST to [/chat] whose body is the
    text of the object with the one field [user] = [hi] makes one outbound
    call whose payload has the default model, the two messages (the default
    system text under role [system], then [hi] under role [user]),
    [max_completion_tokens] 1024, [temperature] 1, [top_p] 1, [stream] true
    and no key [stop]. *)
Theorem default_payload_for_user_hi (env : FixedEndpoint.Env) (h : Headers)
  (query : jsstring) :
  exists payload,
    FixedEndpoint.fetch
      {| method := str "POST";
         url := {| pathname := str "/chat"; search := query |};
         req_headers := h;
         req_body := Some (Stream user_hi) |} env
    = Fetch (Absolute FixedEndpoint.groq_address)
        {| init_method := str "POST";
           init_headers :=
             [ (str "Authorization", str "Bearer " ++ FixedEndpoint.GROQ_API_KEY env);
               (str "Content-Type", str "application/json") ];
           init_body := Some (OfString (JSON_stringify (JObj payload))) |}
        FixedEndpoint.relay /\
    default_payload payload /\
    map fst payload
    = [ str "model"; str "temperature"; str "top_p"; str "stream";
        str "max_completion_tokens"; str "messages" ].
Proof.
  eexists. split; [reflexivity|].
  split; [|reflexivity].
  unfold default_payload. repeat (split; [reflexivity|]). reflexivity.
Qed.

(** The payload of C7 as the upstream receives it. *)
Example default_payload_text :
  JSON_stringify
    (JObj (FixedEndpoint.payload_of
             (JStr (str "You are a helpful assistant.")) (JStr (str "hi"))
             (JStr (str "llama-3.1-8b-instant"))
             (JNum (num_of_Z 1)) (JNum (num_of_Z 1024)) (JNum (num_of_Z 1)) None))
  = str "{" ++ quote (str "model") ++ str ":" ++ quote (str "llama-3.1-8b-instant")
    ++ str "," ++ quote (str "temperature") ++ str ":1,"
    ++ quote (str "top_p") ++ str ":1," ++ quote (str "stream") ++ str ":true,"
    ++ quote (str "max_completion_tokens") ++ str ":1024,"
    ++ quote (str "messages") ++ str ":[{" ++ quote (str "role") ++ str ":"
    ++ quote (str "system") ++ str "," ++ quote (str "content") ++ str ":"
    ++ quote (str "You are a helpful assistant.") ++ str "},{"
    ++ quote (str "role") ++ str ":" ++ quote (str "user") ++ str ","
    ++ quote (str "content") ++ str ":" ++ quote (str "hi") ++ str "}]}".
Proof. vm_compute. reflexivity. Qed.

(** ** The handler, case by case *)

(** A POST to [/chat] gets past the method and path checks. *)
Lemma chat_post_parsed (request : Request) (env : FixedEndpoint.Env) (parsed : JSON) :
  is_method request "POST" -> on_path request "/chat" ->
  FixedEndpoint.json_of_request request = Some parsed ->
  let body := match parsed with JNull => JObj [] | _ => parsed end in
  let user := get_prop body (str "user") in
  FixedEndpoint.fetch request env
  = if negb (truthy user) || negb (str_eqb (typeof user) (str "string"))
    then try (FixedEndpoint.json (JObj missing_user) 400 [])
    else
      Fetch (Absolute FixedEndpoint.groq_address)
        {| init_method := str "POST";
           init_headers := chat_call_headers env;
           init_body :=
             Some (OfString
                     (JSON_stringify
                        (JObj (FixedEndpoint.payload_of
                                 (FixedEndpoint.with_default (get_prop body (str "system"))
                                    (JStr (str "You are a helpful assistant.")))
                                 (FixedEndpoint.with_default user JNull)
                                 (FixedEndpoint.with_default (get_prop body (str "model"))
                                    (JStr (str "llama-3.1-8b-instant")))
                                 (FixedEndpoint.with_default
                                    (get_prop body (str "temperature"))
                                    (JNum (num_of_Z 1)))
                                 (FixedEndpoint.with_default
                                    (get_prop body (str "max_tokens"))
                                    (JNum (num_of_Z 1024)))
                                 (FixedEndpoint.with_default (get_prop body (str "top_p"))
                                    (JNum (num_of_Z 1)))
                                 (get_prop body (str "stop")))))) |}
        FixedEndpoint.relay.
Proof.
  intros Hm Hp Hjson. unfold FixedEndpoint.fetch.
  unfold is_method in Hm. unfold on_path in Hp. rewrite Hm, Hp, Hjson.
  reflexivity.
Qed.

(** The handler either resolves or rejects on its own, or makes the one
    call to the upstream, a POST under the credential, and goes on with
    [relay]. *)
Lemma chat_outcomes (request : Request) (env : FixedEndpoint.Env) :
  (exists o, FixedEndpoint.fetch request env = try o) \/
  (exists b, FixedEndpoint.fetch request env
             = Fetch (Absolute FixedEndpoint.groq_address)
                 {| init_method := str "POST";
                    init_headers := chat_call_headers env;
                    init_body := Some (OfString b) |}
                 FixedEndpoint.relay).
Proof.
  unfold FixedEndpoint.fetch.
  destruct (str_eqb (method request) (str "OPTIONS")); [left; now eexists|].
  destruct (str_eqb (pathname (url request)) (str "/health")); [left; now eexists|].
  destruct (negb (str_eqb (pathname (url request)) (str "/chat"))); [left; now eexists|].
  destruct (negb (str_eqb (method request) (str "POST"))); [left; now eexists|].
  destruct (FixedEndpoint.json_of_request request) as [parsed|]; [|left; now eexists].
  match goal with |- context [if ?c then _ else _] => destruct c end;
    [left | right]; now eexists.
Qed.

Lemma chat_continuation (request : Request) (env : FixedEndpoint.Env)
  (t : Target) (i : RequestInit) (k : Response -> Eff Response) :
  FixedEndpoint.fetch request env = Fetch t i k -> k = FixedEndpoint.relay.
Proof.
  intros E. destruct (chat_outcomes request env) as [[o Ho]|[b Hb]].
  - rewrite Ho in E. destruct o; discriminate.
  - rewrite Hb in E. now injection E.
Qed.

(** ** The missing user *)

(** The record [json] gives to the constructor holds legal entries only. *)
Lemma json_record_ok :
  h_of_record
    (FixedEndpoint.spread
       [ (str "Content-Type", str "application/json");
         (str "Access-Control-Allow-Origin", FixedEndpoint.CORS_ORIGIN);
         (str "Access-Control-Allow-Headers", str "Content-Type, Authorization");
         (str "Access-Control-Allow-Methods", str "POST, OPTIONS") ] [])
  = Some json_answer_headers.
Proof. reflexivity. Qed.

Lemma json_plain (data : JSON) (st : Z) :
  FixedEndpoint.json data st []
  = new_Response (Some (OfString (JSON_stringify data))) st json_answer_headers.
Proof. unfold FixedEndpoint.json. now rewrite json_record_ok. Qed.

Lemma json_answer (data : JSON) (st : Z) :
  admits_body st ->
  FixedEndpoint.json data st []
  = Some {| status := st;
            headers := json_answer_headers;
            body := Some (Stream (JSON_stringify data)) |}.
Proof. intros Hst. rewrite json_plain. now rewrite (new_Response_string _ st _ Hst). Qed.

(** C10: in the fixed-endpoint worker a POST to [/chat] whose body is an
    object with [user] present, a string and empty is answered like one
    whose body has no [user]: status 400, the JSON body with error
    [Missing 'user' (string) in body], the response the helper [json] builds
    for it, and no call to the upstream. *)
Theorem empty_user_is_missing (request : Request) (env : FixedEndpoint.Env)
  (o : Obj JSON) :
  is_method request "POST" -> on_path request "/chat" ->
  FixedEndpoint.json_of_request request = Some (JObj o) ->
  obj_get o (str "user") = Some (JStr []) \/ obj_get o (str "user") = None ->
  user_missing_answer request env.
Proof.
  intros Hm Hp Hjson Huser.
  pose proof (chat_post_parsed request env (JObj o) Hm Hp Hjson) as E.
  cbv beta iota zeta in E.
  change (get_prop (JObj o) (str "user")) with (obj_get o (str "user")) in E.
  assert (Hfalsy : truthy (obj_get o (str "user")) = false)
    by (destruct Huser as [-> | ->]; reflexivity).
  rewrite Hfalsy in E. simpl negb in E. rewrite orb_true_l in E.
  assert (Hr : FixedEndpoint.json (JObj missing_user) 400 []
               = Some {| status := 400;
                         headers := json_answer_headers;
                         body := Some (Stream (JSON_stringify (JObj missing_user))) |}).
  { apply json_answer. split; [lia | reflexivity]. }
  eexists. rewrite E, Hr. split; [reflexivity|]. split; [reflexivity|].
  split; reflexivity.
Qed.

Lemma empty_user_is_missing_witness :
  user_missing_answer (chat_post (one_field "user" "")) chat_env.
Proof.
  apply (empty_user_is_missing _ _ [(str "user", JStr [])]).
  - reflexivity.
  - reflexivity.
  - reflexivity.
  - left. reflexivity.
Defined.

(** ** The relay *)

Lemma failed_test (groqRes : Response) :
  negb (ok groqRes) || negb (match body groqRes with Some _ => true | None => false end)
  = true
  <-> failed groqRes.
Proof.
  unfold failed. rewrite orb_true_iff, !negb_true_iff.
  destruct (body groqRes); intuition congruence.
Qed.

Lemma relay_of_failure (groqRes : Response) :
  failed groqRes ->
  FixedEndpoint.relay groqRes
  = try (FixedEndpoint.json (JObj (upstream_error groqRes)) (status groqRes) []).
Proof.
  intros H. apply failed_test in H. unfold FixedEndpoint.relay. now rewrite H.
Qed.

(** The six calls of [set] on the success path are given legal values. *)
Lemma relay_of_success (groqRes : Response) :
  ~ failed groqRes ->
  FixedEndpoint.relay groqRes
  = Ret {| status := 200; headers := event_stream_headers; body := body groqRes |}.
Proof.
  intros H. unfold FixedEndpoint.relay.
  destruct (negb (ok groqRes)
            || negb (match body groqRes with Some _ => true | None => false end)) eqn:E.
  { apply failed_test in E. contradiction. }
  change (try (new_Response (option_map OfStream (body groqRes)) 200 event_stream_headers)
          = Ret {| status := 200; headers := event_stream_headers; body := body groqRes |}).
  rewrite new_Response_stream by first [lia | intros _; reflexivity].
  reflexivity.
Qed.

(** Where the status admits a body, the relay is as the specification has
    it: on a failure the envelope with the upstream's status and its text
    cut to 2000 code units, on a success with a body the body under status
    200 and the event-stream headers. *)
Lemma relay_of_upstream (request : Request) (env : FixedEndpoint.Env)
  (t : Target) (i : RequestInit) (k : Response -> Eff Response)
  (groqRes : Response) :
  FixedEndpoint.fetch request env = Fetch t i k ->
  (failed groqRes -> admits_body (status groqRes)) ->
  relayed groqRes (k groqRes).
Proof.
  intros E Hst. rewrite (chat_continuation request env t i k E). split.
  - intros Hf. rewrite (relay_of_failure groqRes Hf).
    rewrite (json_answer _ _ (Hst Hf)).
    eexists. split; [reflexivity|]. split; [reflexivity|]. split; [reflexivity|].
    apply firstn_le_length.
  - intros Hok. rewrite (relay_of_success groqRes Hok).
    eexists. split; [reflexivity|]. split; [reflexivity|]. split; [reflexivity|].
    repeat split.
Qed.

Example relay_of_unauthorized :
  relayed unauthorized (FixedEndpoint.relay unauthorized).
Proof.
  apply (relay_of_upstream (chat_post user_hi) chat_env
           (Absolute FixedEndpoint.groq_address) hi_call
           FixedEndpoint.relay unauthorized).
  - reflexivity.
  - intros _. split; [unfold unauthorized; simpl status; lia | reflexivity].
Qed.

(** A failure whose status admits no body cannot be wrapped: the
    constructor refuses the envelope and the handler rejects. *)
Lemma relay_of_bodiless_status (groqRes : Response) :
  failed groqRes -> null_body_status (status groqRes) = true ->
  FixedEndpoint.relay groqRes = Throw.
Proof.
  intros Hf Hnull. rewrite (relay_of_failure groqRes Hf), json_plain.
  unfold new_Response. rewrite Hnull.
  now destruct ((status groqRes <? 200)%Z || (599 <? status groqRes)%Z).
Qed.

(** C8 fails in the code for an upstream answer 204 with no body: the
    worker takes the error path, as the claim has it, and building the
    envelope with status 204 throws, so the client receives no response
    from the handler. *)
Theorem relay_of_no_content :
  exists t i k,
    FixedEndpoint.fetch (chat_post user_hi) chat_env = Fetch t i k /\
    failed no_content /\
    k no_content = Throw /\
    ~ relayed no_content (k no_content).
Proof.
  exists (Absolute FixedEndpoint.groq_address), hi_call, FixedEndpoint.relay.
  split; [reflexivity|]. split; [now right|].
  assert (E : FixedEndpoint.relay no_content = Throw)
    by (apply relay_of_bodiless_status; [now right | reflexivity]).
  split; [exact E|].
  intros [H _]. destruct H as (r & Hr & _); [now right | congruence].
Qed.

(** ** Errors without the CORS headers *)

(** C5 fails in the fixed-endpoint worker: the answers 404 (a path other
    than [/chat]) and 405 (a method other than POST on [/chat]) are built
    without the helper [json] and carry no Access-Control-Allow-Origin. *)
Theorem plain_errors_without_cors (env : FixedEndpoint.Env) (h : Headers)
  (b : option Body) :
  (exists r, FixedEndpoint.fetch (request "POST" "/nope" h b) env = Ret r /\
             status r = 404%Z /\ h_get (headers r) ACAO = None) /\
  (exists r, FixedEndpoint.fetch (request "GET" "/chat" h b) env = Ret r /\
             status r = 405%Z /\ h_get (headers r) ACAO = None).
Proof.
  split; eexists; (split; [reflexivity|]); split; reflexivity.
Qed.

(** Every response the path-mirroring worker resolves with carries the CORS
    headers, the error responses among them. *)
Lemma mirror_responses_carry_cors (parses : jsstring -> jsstring -> bool)
  (req : Request) (env : PathMirror.Env)
  (net : Network) (r : Response) (calls : list (Target * RequestInit)) :
  run net (PathMirror.fetch parses req env) = (Some r, calls) ->
  carries_cors r (resolved_origin req env).
Proof.
  intros Hrun.
  destruct (fetch_outcomes parses req env) as [E|[(st & h & b & E & _)|[b E]]];
    rewrite E in Hrun.
  - discriminate.
  - injection Hrun as <- <-. apply cors_headers_values.
  - apply proxy_run in Hrun as (i & u & _ & _ & ->);
      [apply cors_headers_values | apply resolved_origin_normal].
Qed.

(** The errors the fixed-endpoint worker builds with [json] carry its
    origin: invalid JSON, the missing user and the upstream error. *)
Lemma json_errors_carry_cors (data : JSON) (st : Z) (r : Response) :
  FixedEndpoint.json data st [] = Some r ->
  h_values (headers r) ACAO = [FixedEndpoint.CORS_ORIGIN].
Proof.
  rewrite json_plain. unfold new_Response.
  destruct ((st <? 200)%Z || (599 <? st)%Z); [discriminate|].
  destruct (null_body_status st); [discriminate|].
  intros [= <-]. reflexivity.
Qed.

(** * Further properties *)

(** ** [csv] *)

(** X1: every entry of [csv] is non-empty, carries no white space at either
    end (trimming it again changes nothing) and holds no comma; an unset
    variable gives the empty list. *)
Theorem csv_entries_clean (s : option jsstring) :
  Forall (fun x => x <> [] /\ trim x = x /\ comma_free x) (PathMirror.csv s) /\
  PathMirror.csv None = [].
Proof.
  split; [|reflexivity]. apply Forall_forall. intros x Hx. exact (csv_entry s x Hx).
Qed.

(** X2: [csv] is stable: joining its entries with commas and reading the
    result again gives the same list. *)
Theorem csv_join_round_trip (s : option jsstring) :
  PathMirror.csv (Some (join (str ",") (PathMirror.csv s))) = PathMirror.csv s.
Proof.
  pose proof (csv_entry s) as Hentry.
  destruct (PathMirror.csv s) as [|x l] eqn:E; [reflexivity|].
  unfold PathMirror.csv at 1.
  change (str ",") with [ch ","].
  rewrite split_join.
  - assert (Hmap : forall l', (forall y, In y l' -> In y (x :: l)) ->
                              filter truthy_str (map trim l') = l').
    { induction l' as [|y l' IH]; intros Hsub; [reflexivity|]. simpl.
      destruct (Hentry y (Hsub y (or_introl eq_refl))) as (Hne & Htrim & _).
      rewrite Htrim. apply truthy_str_nonempty in Hne. rewrite Hne.
      f_equal. apply IH. intros z Hz. apply Hsub. now right. }
    apply Hmap. now intros y Hy.
  - discriminate.
  - apply Forall_forall. intros y Hy. now destruct (Hentry y Hy) as (_ & _ & H).
Qed.

(** ** [pickOrigin], [withCORS] and [allowedPath] *)

(** X3: [pickOrigin] never reflects an origin that is not configured: with
    no usable entry in CORS_ORIGINS it gives the wildcard, and otherwise a
    member of the allowlist, whatever the request's Origin header is. *)
Theorem pickOrigin_from_allowlist (req : Request) (env : PathMirror.Env) :
  (PathMirror.csv (PathMirror.CORS_ORIGINS env) = [] ->
   PathMirror.pickOrigin req env = str "*") /\
  (PathMirror.csv (PathMirror.CORS_ORIGINS env) <> [] ->
   In (PathMirror.pickOrigin req env) (PathMirror.csv (PathMirror.CORS_ORIGINS env))).
Proof.
  rewrite pickOrigin_spec. unfold resolved_origin.
  destruct (PathMirror.csv (PathMirror.CORS_ORIGINS env)) as [|first rest].
  - split; [reflexivity | congruence].
  - split; [discriminate|]. intros _.
    destruct (h_get (req_headers req) (str "Origin")) as [o|]; [|now left].
    destruct (arr_includes (first :: rest) o) eqn:E; [|now left].
    now apply arr_includes_In.
Qed.

Lemma cors_name_false (name : jsstring) :
  cors_name name = false ->
  name_eqb ACAO name = false /\ name_eqb ACAH name = false /\
  name_eqb ACAM name = false /\ name_eqb (str "Vary") name = false.
Proof.
  unfold cors_name. intros H.
  apply orb_false_iff in H as [H H4]. apply orb_false_iff in H as [H H3].
  apply orb_false_iff in H as [H1 H2]. now repeat split.
Qed.

(** X4: when [withCORS] returns, the response keeps the status and the body
    it was given and every header outside the three CORS names and Vary;
    under each CORS name it holds the one value [withCORS] sets, whatever
    stood there before: for the origin, the value with the HTTP white space
    at its ends removed, as [Headers.set] stores it. *)
Theorem withCORS_keeps_the_rest (res r : Response) (origin : jsstring) :
  PathMirror.withCORS res origin = Some r ->
  status r = status res /\
  body r = body res /\
  carries_cors r (normalize origin) /\
  (forall name, cors_name name = false ->
                h_values (headers r) name = h_values (headers res) name).
Proof.
  rewrite withCORS_spec.
  destruct (header_value origin) as [o|] eqn:Eo; [|discriminate].
  apply header_value_some in Eo. subst o. cbn [and_then]. intros E.
  apply new_Response_stream_inv in E as [-> _]. simpl.
  split; [reflexivity|]. split; [reflexivity|].
  split; [apply cors_entries_values|].
  intros name Hname. apply cors_name_false in Hname as (H1 & H2 & H3 & H4).
  now apply cors_entries_other.
Qed.

Lemma withCORS_keeps_the_rest_witness :
  PathMirror.withCORS created_answer (str " https://blog.example ")
  = Some {| status := 201;
            headers := cors_entries (headers created_answer)
                         (str "https://blog.example") true;
            body := Some (Stream (str "{}")) |} /\
  h_values (cors_entries (headers created_answer) (str "https://blog.example") true) ACAO
  = [str "https://blog.example"] /\
  h_values (cors_entries (headers created_answer) (str "https://blog.example") true)
    (str "X-Request-Id") = [str "r1"].
Proof.
  split; [reflexivity|].
  destruct (withCORS_keeps_the_rest created_answer
              {| status := 201;
                 headers := cors_entries (headers created_answer)
                              (str "https://blog.example") true;
                 body := Some (Stream (str "{}")) |}
              (str " https://blog.example ") eq_refl) as (_ & _ & (Ho & _) & Hrest).
  split; [exact Ho|].
  exact (Hrest (str "X-Request-Id") eq_refl).
Defined.

(** X5: the path allowlist matches by plain prefix: whatever is appended to
    an allowed path, a further segment or not, is allowed too. *)
Theorem allowedPath_extends (path rest : jsstring) (env : PathMirror.Env) :
  PathMirror.allowedPath path env = true ->
  PathMirror.allowedPath (path ++ rest) env = true.
Proof.
  intros H. apply allowedPath_spec in H as (p & Hp & Hm). apply allowedPath_spec.
  exists p. split; [assumption|]. right.
  destruct Hm as [->|(r & ->)].
  - now exists rest.
  - exists (r ++ rest). now rewrite app_assoc.
Qed.

Lemma allowedPath_extends_witness :
  PathMirror.allowedPath (str "/openai/v1/models" ++ str "-private/keys") plain_env
  = true.
Proof. apply allowedPath_extends. reflexivity. Defined.

(** ** The path-mirroring handler *)

(** X7: the path-mirroring worker answers [/health] itself, whatever the
    method (OPTIONS too), the headers, the body, the path and model
    allowlists and the credential, under every origin [Headers.set]
    accepts: status 200, the JSON text of [ok: true] under a JSON
    Content-Type, the CORS headers, and no call to the upstream. *)
Theorem health_before_policy (parses : jsstring -> jsstring -> bool)
  (req : Request) (env : PathMirror.Env) :
  on_path req "/health" -> answerable req env ->
  exists r,
    PathMirror.fetch parses req env = Ret r /\
    status r = 200%Z /\
    body r = Some (Stream (JSON_stringify (JObj [(str "ok", JBool true)]))) /\
    h_values (headers r) (str "Content-Type") = [str "application/json"] /\
    carries_cors r (PathMirror.pickOrigin req env).
Proof.
  intros Hp Ho. eexists.
  split; [rewrite (fetch_health parses req env Hp); now apply delivered_accepted|].
  split; [reflexivity|]. split; [reflexivity|]. split.
  - unfold answer. simpl headers. now rewrite cors_headers_other.
  - rewrite pickOrigin_spec. apply cors_headers_values.
Qed.

Lemma health_before_policy_witness :
  exists r,
    PathMirror.fetch no_authority health_post broken_key_env = Ret r /\
    status r = 200%Z /\
    body r = Some (Stream (str "{" ++ quote (str "ok") ++ str ":true}")).
Proof.
  destruct (health_before_policy no_authority health_post broken_key_env eq_refl)
    as (r & Hr & Hs & Hb & _).
  - vm_compute. discriminate.
  - exists r. split; [exact Hr|]. split; [exact Hs|]. exact Hb.
Defined.

(** Under an origin that is no header value the health check itself is
    not answered. *)
Example health_under_two_lines (parses : jsstring -> jsstring -> bool) :
  PathMirror.fetch parses health_post two_lines_env = Throw.
Proof.
  rewrite fetch_health by reflexivity. now apply delivered_refused.
Qed.

Lemma post_is_not_get_or_head (req : Request) :
  str_eqb (method req) (str "POST") = true ->
  str_eqb (method req) (str "GET") || str_eqb (method req) (str "HEAD") = false.
Proof. intros H. apply str_eqb_eq in H. now rewrite H. Qed.

Lemma delivered_not_fetch (o : jsstring) (r : Response)
  (t : Target) (i : RequestInit) (k : Response -> Eff Response) :
  delivered o r <> Fetch t i k.
Proof. unfold delivered. destruct (header_value o); discriminate. Qed.

(** A proxied request is past the three gates and the throw sites, and its
    outbound body is [forwarded_body]. *)
Lemma fetch_proxied (parses : jsstring -> jsstring -> bool)
  (req : Request) (env : PathMirror.Env)
  (t : Target) (i : RequestInit) (k : Response -> Eff Response) :
  PathMirror.fetch parses req env = Fetch t i k ->
  ~ on_path req "/health" /\ ~ is_method req "OPTIONS" /\
  path_allowed (pathname (url req)) env /\
  forwardable parses req env /\
  init_body i = forwarded_body req.
Proof.
  intros E.
  destruct (str_eqb (pathname (url req)) (str "/health")) eqn:Ehealth.
  { apply str_eqb_eq in Ehealth. rewrite (fetch_health parses req env Ehealth) in E.
    now apply delivered_not_fetch in E. }
  apply str_eqb_neq in Ehealth.
  destruct (str_eqb (method req) (str "OPTIONS")) eqn:Eopt.
  { apply str_eqb_eq in Eopt. rewrite (fetch_preflight parses req env Ehealth Eopt) in E.
    now apply delivered_not_fetch in E. }
  apply str_eqb_neq in Eopt.
  destruct (path_allowed_dec (pathname (url req)) env) as [Ha|Ha].
  2: { rewrite (fetch_not_found parses req env Ehealth Eopt Ha) in E.
       now apply delivered_not_fetch in E. }
  destruct (parses (pathname (url req) ++ search (url req)) PathMirror.UPSTREAM_ORIGIN)
    eqn:Eurl.
  2: { rewrite (fetch_unparsable parses req env Ehealth Eopt Ha Eurl) in E.
       discriminate. }
  destruct (PathMirror.upstream_headers req env) as [hs|] eqn:Ehs.
  2: { rewrite (fetch_unaccepted parses req env Ehealth Eopt Ha Ehs) in E.
       discriminate. }
  apply upstream_headers_some in Ehs as (Hk & Hc & _).
  split; [exact Ehealth|]. split; [exact Eopt|]. split; [exact Ha|].
  split; [now split|].
  rewrite (fetch_past_gate parses req env Ehealth Eopt Ha Eurl Hk Hc) in E.
  unfold forwarded_body, body_json, PathMirror.proxy in *.
  destruct (str_eqb (method req) (str "POST")) eqn:Epost.
  - pose proof (post_is_not_get_or_head req Epost) as Hget.
    destruct (inspects_json req).
    + destruct (text_of_request req) as [raw|]; [|discriminate]. cbn [and_then].
      destruct (PathMirror.parse_body raw) as [json|];
        [|now apply delivered_not_fetch in E].
      destruct (PathMirror.nonempty (model_allowlist env)
                && (negb (truthy_str (model_field json))
                    || negb (arr_includes (model_allowlist env) (model_field json))));
        [now apply delivered_not_fetch in E|].
      injection E as _ <- _. simpl. now rewrite Hget.
    + injection E as _ <- _. simpl. now rewrite Hget.
  - injection E as _ <- _. simpl.
    now destruct (str_eqb (method req) (str "GET") || str_eqb (method req) (str "HEAD")).
Qed.

(** X8: the outbound call of the path-mirroring worker mirrors the request:
    its target is the request's path followed by its query string, resolved
    against the fixed upstream origin, and its method is the request's. *)
Theorem outbound_call_mirrors_request (parses : jsstring -> jsstring -> bool)
  (req : Request) (env : PathMirror.Env)
  (t : Target) (i : RequestInit) (k : Response -> Eff Response) :
  PathMirror.fetch parses req env = Fetch t i k ->
  t = Resolve (pathname (url req) ++ search (url req)) (str "https://api.groq.com") /\
  init_method i = method req.
Proof.
  intros E. apply proxied_init in E as (Ht & Hm & _). now split.
Qed.

Lemma outbound_call_mirrors_request_witness :
  fst (models_call models_get)
  = Resolve (pathname (url models_get) ++ search (url models_get))
      (str "https://api.groq.com") /\
  init_method (snd (models_call models_get)) = method models_get.
Proof.
  eapply (outbound_call_mirrors_request no_authority models_get plain_env _ _ _).
  reflexivity.
Defined.

(** X9: the body of the outbound call is null for every method other than
    POST (a PUT or PATCH body is not forwarded); for a POST read as JSON it
    is the parsed body serialised again, not the text received; for any
    other POST it is the request's own body stream. *)
Theorem outbound_body_by_method (parses : jsstring -> jsstring -> bool)
  (req : Request) (env : PathMirror.Env)
  (t : Target) (i : RequestInit) (k : Response -> Eff Response) :
  PathMirror.fetch parses req env = Fetch t i k ->
  init_body i = forwarded_body req /\
  (~ is_method req "POST" -> init_body i = None).
Proof.
  intros E. apply fetch_proxied in E as (_ & _ & _ & _ & Hb). split; [exact Hb|].
  intros Hpost. rewrite Hb. unfold forwarded_body.
  apply str_eqb_neq in Hpost. now rewrite Hpost.
Qed.

Lemma outbound_body_by_method_witness :
  exists i k,
    PathMirror.fetch no_authority put_models plain_env
    = Fetch (Resolve (str "/openai/v1/models") PathMirror.UPSTREAM_ORIGIN) i k /\
    req_body put_models = Some (Stream (str "{}")) /\
    init_body i = None.
Proof.
  do 2 eexists. split; [reflexivity|]. split; [reflexivity|].
  eapply (outbound_body_by_method no_authority put_models plain_env _ _ _);
    [reflexivity|].
  discriminate.
Defined.

(** The body of a JSON POST is written again from the numbers binary64
    holds: an integer beyond [2^53] loses its last digits and a decimal
    beyond the largest finite value is sent as [null]. *)
Example big_numbers_forwarded :
  forwarded_body big_numbers_post
  = Some (OfString (str "{" ++ quote (str "n") ++ str ":12345678901234567000,"
                    ++ quote (str "big") ++ str ":null}")).
Proof. vm_compute. reflexivity. Qed.

(** X10: the model allowlist is only applied to bodies read as JSON: a POST
    to an allowed path other than [/health] whose Content-Type is set, not
    empty and does not contain [application/json] (the test is by substring
    and by case) is forwarded with its own body, whatever ALLOW_MODELS
    holds, once [new URL] accepts the path and [Headers.set] the
    credential. *)
Theorem other_content_types_skip_the_model_check
  (parses : jsstring -> jsstring -> bool) (req : Request) (env : PathMirror.Env)
  (ct : jsstring) :
  is_method req "POST" -> ~ on_path req "/health" ->
  path_allowed (pathname (url req)) env ->
  h_get (req_headers req) (str "Content-Type") = Some ct -> ct <> [] ->
  includes ct (str "application/json") = false ->
  legal_request req -> forwardable parses req env ->
  exists t i k,
    PathMirror.fetch parses req env = Fetch t i k /\
    init_body i = option_map OfStream (req_body req).
Proof.
  intros Hm Hp Ha Hct Hne Hinc Hreq [Hurl Hkey].
  pose proof (fetch_past_gate parses req env Hp (post_is_not_options req Hm) Ha
                Hurl Hkey (content_type_accepted req Hreq)) as E.
  assert (Hins : inspects_json req = false).
  { unfold inspects_json, content_type_if_nonempty. rewrite Hct.
    destruct ct; [congruence|]. now rewrite includes_json_normalize. }
  unfold is_method in Hm. rewrite Hm, str_eqb_refl, Hins in E.
  unfold PathMirror.proxy in E. do 3 eexists. split; [exact E|].
  simpl. now rewrite Hm.
Qed.

Lemma other_content_types_skip_the_model_check_witness :
  PathMirror.csv (PathMirror.ALLOW_MODELS audio_env) = [str "llama-3.1-8b-instant"] /\
  exists t i k,
    PathMirror.fetch no_authority multipart_post audio_env = Fetch t i k /\
    init_body i = Some (OfStream (Stream (str "--x--"))).
Proof.
  split; [reflexivity|].
  apply (other_content_types_skip_the_model_check no_authority multipart_post audio_env
           (str "multipart/form-data; boundary=x")).
  - reflexivity.
  - discriminate.
  - apply allowedPath_spec. reflexivity.
  - reflexivity.
  - discriminate.
  - reflexivity.
  - repeat constructor.
  - split; [reflexivity | vm_compute; discriminate].
Defined.

(** The same holds for a JSON Content-Type written in another case. *)
Example upper_case_json_is_not_inspected :
  contacts_upstream
    (PathMirror.fetch no_authority
       (request "POST" chat_completions
          [(str "Content-Type", str "Application/JSON")]
          (text (one_field "model" "gpt-4")))
       one_model_env) = true.
Proof. reflexivity. Qed.

(** X13: a POST read as JSON, on an allowed path other than [/health],
    whose body is not empty and does not parse is answered 400 with the
    JSON text of [error: Invalid JSON], a JSON Content-Type and the CORS
    headers, once the handler is past its throw sites ([new URL] accepts the
    path, [Headers.set] the credential and the resolved origin); the
    upstream is not called. *)
Theorem invalid_json_answer (parses : jsstring -> jsstring -> bool)
  (req : Request) (env : PathMirror.Env) (raw : jsstring) :
  is_method req "POST" -> ~ on_path req "/health" ->
  path_allowed (pathname (url req)) env ->
  inspects_json req = true ->
  text_of_request req = Some raw -> raw <> [] -> JSON_parse raw = None ->
  legal_request req -> answerable req env -> forwardable parses req env ->
  exists r,
    PathMirror.fetch parses req env = Ret r /\
    status r = 400%Z /\
    body r = error_body invalid_json /\
    h_values (headers r) (str "Content-Type") = [str "application/json"] /\
    carries_cors r (PathMirror.pickOrigin req env).
Proof.
  intros Hm Hp Ha Hins Htext Hne Hparse Hreq Ho [Hurl Hkey].
  pose proof (fetch_past_gate parses req env Hp (post_is_not_options req Hm) Ha
                Hurl Hkey (content_type_accepted req Hreq)) as E.
  assert (Hbody : PathMirror.parse_body raw = None).
  { unfold PathMirror.parse_body.
    apply truthy_str_nonempty in Hne. now rewrite Hne. }
  unfold is_method in Hm. rewrite Hm, str_eqb_refl, Hins, Htext, Hbody in E.
  rewrite (delivered_accepted _ _ Ho) in E.
  eexists. split; [exact E|]. split; [reflexivity|]. split; [reflexivity|]. split.
  - unfold answer. simpl headers. now rewrite cors_headers_other.
  - rewrite pickOrigin_spec. apply cors_headers_values.
Qed.

Lemma invalid_json_answer_witness :
  exists r,
    PathMirror.fetch no_authority not_json_post plain_env = Ret r /\ status r = 400%Z.
Proof.
  destruct (invalid_json_answer no_authority not_json_post plain_env (str "not json"))
    as (r & Hr & Hs & _).
  - reflexivity.
  - discriminate.
  - apply allowedPath_spec. reflexivity.
  - reflexivity.
  - reflexivity.
  - discriminate.
  - reflexivity.
  - repeat constructor.
  - vm_compute. discriminate.
  - split; [reflexivity | vm_compute; discriminate].
  - exists r. now split.
Defined.

(** ** The relay of the path-mirroring worker *)

(** X11: the path-mirroring worker relays the upstream's answer as it is,
    success or not: the response has the upstream's status and body, and
    under every header name other than the three CORS names and Vary the
    values the upstream sent. *)
Theorem relay_passes_through (parses : jsstring -> jsstring -> bool)
  (req : Request) (env : PathMirror.Env) (net : Network)
  (r u : Response) (calls : list (Target * RequestInit)) (t : Target) (i : RequestInit) :
  run net (PathMirror.fetch parses req env) = (Some r, calls) ->
  In (t, i) calls -> net t i = Some u ->
  status r = status u /\
  body r = body u /\
  (forall name, cors_name name = false ->
                h_values (headers r) name = h_values (headers u) name).
Proof.
  intros Hrun Hin Hnet.
  destruct (fetch_outcomes parses req env) as [E|[(st & h & b & E & _)|[b E]]];
    rewrite E in Hrun.
  - discriminate.
  - injection Hrun as _ <-. destruct Hin.
  - apply proxy_run in Hrun as (i' & u' & -> & Hnet' & ->);
      [|apply resolved_origin_normal].
    destruct Hin as [[= <- <-]|[]]. rewrite Hnet in Hnet'. injection Hnet' as <-.
    split; [reflexivity|]. split; [reflexivity|].
    intros name Hname. apply cors_name_false in Hname as (H1 & H2 & H3 & H4).
    unfold answer. simpl headers. now apply cors_headers_other.
Qed.

Lemma relay_passes_through_witness :
  status (answer 201 (headers created_answer) (body created_answer) (str "*")) = 201%Z /\
  body (answer 201 (headers created_answer) (body created_answer) (str "*"))
  = Some (Stream (str "{}")).
Proof.
  destruct (relay_passes_through no_authority models_get plain_env (always created_answer)
              (answer 201 (headers created_answer) (body created_answer) (str "*"))
              created_answer [models_call models_get]
              (fst (models_call models_get))
              (snd (models_call models_get)))
    as (Hs & Hb & _).
  - reflexivity.
  - now left.
  - reflexivity.
  - split; [exact Hs | exact Hb].
Defined.

(** X12: the path-mirroring worker calls the upstream at most once per
    request, and when that call fails in transport the handler rejects:
    there is no retry and no response of its own. *)
Theorem at_most_one_call (parses : jsstring -> jsstring -> bool)
  (req : Request) (env : PathMirror.Env) (net : Network) :
  (List.length (snd (run net (PathMirror.fetch parses req env))) <= 1)%nat /\
  (forall t i, In (t, i) (snd (run net (PathMirror.fetch parses req env))) ->
               net t i = None ->
               run net (PathMirror.fetch parses req env) = (None, [(t, i)])).
Proof.
  destruct (fetch_outcomes parses req env) as [E|[(st & h & b & E & _)|[b E]]];
    rewrite E.
  - simpl. split; [lia | now intros t i []].
  - simpl. split; [lia | now intros t i []].
  - unfold PathMirror.proxy. simpl run.
    match goal with |- context [net ?t ?i] => set (tgt := t); set (ini := i) end.
    destruct (net tgt ini) as [u|] eqn:Enet.
    + destruct (new_Response (option_map OfStream (body u)) (status u) (headers u))
        as [proxied|]; simpl.
      * destruct (PathMirror.withCORS proxied (resolved_origin req env)); simpl;
          (split; [lia|]); intros t i [[= <- <-]|[]] Hnone; congruence.
      * split; [lia|]. intros t i [[= <- <-]|[]] Hnone. congruence.
    + simpl. split; [lia|]. now intros t i [[= <- <-]|[]] _.
Qed.

(** X6: once past its own throw sites (the runtime accepts the resolved
    origin, the path and the credential, and the body can be read) the
    path-mirroring worker never rejects on its own: when the handler
    rejects, it had made its one call, and either the call failed or the
    answer was not one [fetch] can resolve with. *)
Theorem rejects_only_through_upstream (parses : jsstring -> jsstring -> bool)
  (req : Request) (env : PathMirror.Env)
  (net : Network) (calls : list (Target * RequestInit)) :
  servable parses req env ->
  run net (PathMirror.fetch parses req env) = (None, calls) ->
  exists t i,
    calls = [(t, i)] /\
    (net t i = None \/ exists u, net t i = Some u /\ ~ from_network u).
Proof.
  intros (Ho & [Hurl Hkey] & Hreq & Hread).
  assert (Hproxy : forall b,
            run net (PathMirror.proxy req (mirror_target req) (outbound_of req env)
                       (resolved_origin req env) b) = (None, calls) ->
            exists t i,
              calls = [(t, i)] /\
              (net t i = None \/ exists u, net t i = Some u /\ ~ from_network u)).
  { intros b. unfold PathMirror.proxy. simpl run.
    match goal with |- context [net ?t ?i] => set (tgt := t); set (ini := i) end.
    destruct (net tgt ini) as [u|] eqn:Enet.
    - destruct (new_Response (option_map OfStream (body u)) (status u) (headers u))
        as [proxied|] eqn:Enew; cbn [try bind].
      + apply new_Response_stream_inv in Enew as [-> Hwf].
        rewrite withCORS_delivered; [|apply resolved_origin_normal | exact Hwf].
        rewrite (delivered_accepted _ _ Ho). discriminate.
      + intros [= <-]. exists tgt, ini. split; [reflexivity|]. right.
        exists u. split; [exact Enet|]. intros Hu.
        apply from_network_well_formed in Hu as [Hst Hnull].
        rewrite (new_Response_stream (body u) (status u) (headers u) Hst Hnull) in Enew.
        discriminate.
    - intros [= <-]. exists tgt, ini. split; [reflexivity | now left]. }
  assert (Hlocal : forall r,
            run net (delivered (resolved_origin req env) r) = (None, calls) -> False).
  { intros r. rewrite (delivered_accepted _ _ Ho). discriminate. }
  destruct (str_eqb (pathname (url req)) (str "/health")) eqn:Ehealth.
  { apply str_eqb_eq in Ehealth. rewrite (fetch_health parses req env Ehealth).
    intros H. now apply Hlocal in H. }
  apply str_eqb_neq in Ehealth.
  destruct (str_eqb (method req) (str "OPTIONS")) eqn:Eopt.
  { apply str_eqb_eq in Eopt. rewrite (fetch_preflight parses req env Ehealth Eopt).
    intros H. now apply Hlocal in H. }
  apply str_eqb_neq in Eopt.
  destruct (path_allowed_dec (pathname (url req)) env) as [Ha|Ha].
  2: { rewrite (fetch_not_found parses req env Ehealth Eopt Ha).
       intros H. now apply Hlocal in H. }
  rewrite (fetch_past_gate parses req env Ehealth Eopt Ha Hurl Hkey
             (content_type_accepted req Hreq)).
  destruct (str_eqb (method req) (str "POST")); [|apply Hproxy].
  destruct (inspects_json req); [|apply Hproxy].
  unfold readable in Hread.
  destruct (text_of_request req) as [raw|]; [|now destruct Hread].
  destruct (PathMirror.parse_body raw) as [json|];
    [|intros H; now apply Hlocal in H].
  destruct (PathMirror.nonempty (model_allowlist env)
            && (negb (truthy_str (model_field json))
                || negb (arr_includes (model_allowlist env) (model_field json))));
    [intros H; now apply Hlocal in H | apply Hproxy].
Qed.

Lemma rejects_only_through_upstream_witness :
  exists t i,
    [models_call models_get] = [(t, i)] /\
    (unreachable t i = None \/ exists u, unreachable t i = Some u /\ ~ from_network u).
Proof.
  apply (rejects_only_through_upstream no_authority models_get plain_env unreachable).
  - split; [vm_compute; discriminate|].
    split; [split; [reflexivity | vm_compute; discriminate]|].
    split; [constructor | discriminate].
  - reflexivity.
Defined.

(** The throw sites themselves: a path [new URL] refuses, a credential or
    an origin [Headers.set] refuses, a body that cannot be read.  The first
    three reject without a call; under the origin that is refused a request
    that is proxied rejects after its call. *)
Example rejects_on_its_own (parses : jsstring -> jsstring -> bool) (net : Network) :
  (parses (str "//[") PathMirror.UPSTREAM_ORIGIN = false ->
   run net (PathMirror.fetch parses bracket_get any_path_env) = (None, [])) /\
  run net (PathMirror.fetch parses models_get broken_key_env) = (None, []) /\
  (parses (str chat_completions) PathMirror.UPSTREAM_ORIGIN = true ->
   run net (PathMirror.fetch parses broken_post plain_env) = (None, [])) /\
  run net (PathMirror.fetch parses stray_empty_post two_lines_env) = (None, []).
Proof.
  split; [|split; [|split]].
  - intros Hurl. rewrite fetch_unparsable;
      [reflexivity | discriminate | discriminate
      | apply allowedPath_spec; reflexivity | exact Hurl].
  - now rewrite broken_credential_rejects.
  - intros Hurl. rewrite fetch_past_gate;
      [reflexivity | discriminate | discriminate | apply allowedPath_spec; reflexivity
      | exact Hurl | vm_compute; discriminate | vm_compute; discriminate ].
  - rewrite fetch_not_found;
      [ | discriminate | discriminate
        | intros Ha; apply allowedPath_spec in Ha; discriminate].
    now rewrite delivered_refused.
Qed.

(** * Further properties of the fixed-endpoint worker *)

(** X14: the fixed-endpoint worker answers every OPTIONS request, on any
    path ([/health] and unknown paths too), with status 204, no body, the
    fixed origin and a max age of 86400 seconds, without reading the body
    and without calling the upstream. *)
Theorem chat_preflight_first (request : Request) (env : FixedEndpoint.Env) :
  is_method request "OPTIONS" ->
  FixedEndpoint.fetch request env
  = Ret {| status := 204; headers := preflight_headers; body := None |}.
Proof.
  intros Hm. unfold FixedEndpoint.fetch. unfold is_method in Hm.
  now rewrite Hm, str_eqb_refl.
Qed.

Lemma chat_preflight_first_witness :
  FixedEndpoint.fetch health_preflight chat_env
  = Ret {| status := 204; headers := preflight_headers; body := None |}.
Proof. apply chat_preflight_first. reflexivity. Defined.

(** X15: for every method other than OPTIONS the fixed-endpoint worker
    answers [/health] with status 200, the JSON text of [ok: true] and the
    headers of its helper [json]; the upstream is not called. *)
Theorem chat_health (request : Request) (env : FixedEndpoint.Env) :
  ~ is_method request "OPTIONS" -> on_path request "/health" ->
  FixedEndpoint.fetch request env
  = Ret {| status := 200;
           headers := json_answer_headers;
           body := Some (Stream (JSON_stringify (JObj [(str "ok", JBool true)]))) |}.
Proof.
  intros Hm Hp. unfold FixedEndpoint.fetch. apply str_eqb_neq in Hm.
  unfold on_path in Hp. now rewrite Hm, Hp, str_eqb_refl.
Qed.

Lemma chat_health_witness :
  FixedEndpoint.fetch health_post chat_env
  = Ret {| status := 200;
           headers := json_answer_headers;
           body := Some (Stream (JSON_stringify (JObj [(str "ok", JBool true)]))) |}.
Proof. apply chat_health; [discriminate | reflexivity]. Defined.

(** [body ?? {}] changes nothing for the fields the handler reads. *)
Lemma nullish_body_fields (parsed : JSON) (k : jsstring) :
  get_prop (match parsed with JNull => JObj [] | _ => parsed end) k = get_prop parsed k.
Proof. now destruct parsed. Qed.

(** The test on [user] passes exactly for a string that is not empty. *)
Lemma user_test (user : option JSON) :
  negb (truthy user) || negb (str_eqb (typeof user) (str "string")) = false
  <-> exists c s, user = Some (JStr (c :: s)).
Proof.
  split.
  - intros H. apply orb_false_iff in H as [Ht Hs].
    apply negb_false_iff in Ht, Hs.
    destruct user as [[|b|n|[|c s]|l|o]|]; try discriminate. now exists c, s.
  - intros (c & s & ->). reflexivity.
Qed.

(** A request that gets as far as the body. *)
Lemma chat_reaches_body (request : Request) (env : FixedEndpoint.Env)
  (t : Target) (i : RequestInit) (k : Response -> Eff Response) :
  FixedEndpoint.fetch request env = Fetch t i k ->
  is_method request "POST" /\ on_path request "/chat" /\
  exists parsed, FixedEndpoint.json_of_request request = Some parsed.
Proof.
  unfold FixedEndpoint.fetch.
  destruct (str_eqb (method request) (str "OPTIONS")); [now destruct FixedEndpoint.corsPreflight|].
  destruct (str_eqb (pathname (url request)) (str "/health")).
  { now destruct (FixedEndpoint.json _ _ _). }
  destruct (str_eqb (pathname (url request)) (str "/chat")) eqn:Ep; simpl negb; cbv iota;
    [|discriminate].
  destruct (str_eqb (method request) (str "POST")) eqn:Em; simpl negb; cbv iota;
    [|discriminate].
  apply str_eqb_eq in Ep, Em.
  destruct (FixedEndpoint.json_of_request request) as [parsed|];
    [|now destruct (FixedEndpoint.json _ _ _)].
  intros _. split; [exact Em|]. split; [exact Ep|]. now exists parsed.
Qed.

(** X16: the fixed-endpoint worker calls the upstream exactly for a POST to
    [/chat] whose body parses as JSON and has a [user] that is a string and
    not empty; a [user] of any other type, an empty one, a body that is an
    array, a number or null, another path or another method never reach
    it. *)
Theorem chat_reaches_upstream (request : Request) (env : FixedEndpoint.Env) :
  contacts_upstream (FixedEndpoint.fetch request env) = true
  <-> is_method request "POST" /\ on_path request "/chat" /\
      exists parsed user, accepted_chat request parsed user.
Proof.
  split.
  - destruct (FixedEndpoint.fetch request env) as [r| |t i k] eqn:E;
      try discriminate. intros _.
    destruct (chat_reaches_body request env t i k E) as (Hm & Hp & parsed & Hj).
    split; [exact Hm|]. split; [exact Hp|].
    rewrite (chat_post_parsed request env parsed Hm Hp Hj) in E. cbv zeta in E.
    rewrite nullish_body_fields in E.
    destruct (negb (truthy (get_prop parsed (str "user")))
              || negb (str_eqb (typeof (get_prop parsed (str "user"))) (str "string")))
      eqn:Etest.
    + now destruct (FixedEndpoint.json _ _ _).
    + apply user_test in Etest as (c & s & Hu).
      exists parsed, (c :: s). split; [exact Hj|]. split; [exact Hu | discriminate].
  - intros (Hm & Hp & parsed & user & Hj & Hu & Hne).
    rewrite (chat_post_parsed request env parsed Hm Hp Hj). cbv zeta.
    rewrite nullish_body_fields.
    assert (Etest : negb (truthy (get_prop parsed (str "user")))
                    || negb (str_eqb (typeof (get_prop parsed (str "user"))) (str "string"))
                    = false).
    { apply user_test. destruct user as [|c s]; [congruence|]. now exists c, s. }
    now rewrite Etest.
Qed.

(** X17: a POST to [/chat] whose body cannot be read or does not parse as
    JSON, the empty body included (there is no default for it here), is
    answered 400 with the JSON text of [error: Invalid JSON] and the headers
    of [json]; the upstream is not called. *)
Theorem chat_invalid_json (request : Request) (env : FixedEndpoint.Env) :
  is_method request "POST" -> on_path request "/chat" ->
  text_of_request request = None \/ text_of_request request = Some [] \/
  (exists raw, text_of_request request = Some raw /\ JSON_parse raw = None) ->
  FixedEndpoint.fetch request env
  = Ret {| status := 400;
           headers := json_answer_headers;
           body := error_body invalid_json |}.
Proof.
  intros Hm Hp Hbad.
  assert (Hj : FixedEndpoint.json_of_request request = None).
  { unfold FixedEndpoint.json_of_request.
    destruct Hbad as [-> | [-> | (raw & -> & H)]]; [reflexivity | reflexivity | exact H]. }
  unfold FixedEndpoint.fetch. unfold is_method in Hm. unfold on_path in Hp.
  now rewrite Hm, Hp, Hj.
Qed.

Lemma chat_invalid_json_witness :
  FixedEndpoint.fetch (request "POST" "/chat" json_type None) chat_env
  = Ret {| status := 400;
           headers := json_answer_headers;
           body := error_body invalid_json |}.
Proof.
  apply chat_invalid_json; [reflexivity | reflexivity | right; left; reflexivity].
Defined.

(** A body whose read fails is answered in the same way. *)
Example chat_broken_body :
  FixedEndpoint.fetch (request "POST" "/chat" json_type (Some Broken)) chat_env
  = Ret {| status := 400;
           headers := json_answer_headers;
           body := error_body invalid_json |}.
Proof. reflexivity. Qed.

(** The call made for an accepted body. *)
Lemma chat_accepted_call (request : Request) (env : FixedEndpoint.Env)
  (t : Target) (i : RequestInit) (k : Response -> Eff Response) :
  FixedEndpoint.fetch request env = Fetch t i k ->
  exists parsed user,
    accepted_chat request parsed user /\
    init_body i
    = Some (OfString
              (JSON_stringify
                 (JObj (FixedEndpoint.payload_of
                          (field_or parsed "system" (JStr (str "You are a helpful assistant.")))
                          (JStr user)
                          (field_or parsed "model" (JStr (str "llama-3.1-8b-instant")))
                          (field_or parsed "temperature" (JNum (num_of_Z 1)))
                          (field_or parsed "max_tokens" (JNum (num_of_Z 1024)))
                          (field_or parsed "top_p" (JNum (num_of_Z 1)))
                          (get_prop parsed (str "stop")))))).
Proof.
  intros E.
  destruct (chat_reaches_body request env t i k E) as (Hm & Hp & parsed & Hj).
  rewrite (chat_post_parsed request env parsed Hm Hp Hj) in E. cbv zeta in E.
  rewrite !nullish_body_fields in E.
  destruct (negb (truthy (get_prop parsed (str "user")))
            || negb (str_eqb (typeof (get_prop parsed (str "user"))) (str "string")))
    eqn:Etest.
  { now destruct (FixedEndpoint.json _ _ _). }
  apply user_test in Etest as (c & s & Hu). rewrite Hu in E.
  injection E as _ <- _. exists parsed, (c :: s).
  split; [split; [exact Hj | split; [exact Hu | discriminate]]|].
  reflexivity.
Qed.

(** X18: the payload the fixed-endpoint worker sends has the keys [model],
    [temperature], [top_p], [stream], [max_completion_tokens], [messages]
    in this order, followed by [stop] exactly when the body has a [stop]
    that is not null; any other field of the body is dropped.  [stream] is
    always true; [max_completion_tokens] is the body's [max_tokens]; each
    optional field takes its default only when the body lacks it, and is
    otherwise passed on as received, whatever its type; the messages are
    the system text and then the user text. *)
Theorem chat_payload_shape (request : Request) (env : FixedEndpoint.Env)
  (t : Target) (i : RequestInit) (k : Response -> Eff Response) :
  FixedEndpoint.fetch request env = Fetch t i k ->
  exists parsed user payload,
    accepted_chat request parsed user /\
    init_body i = Some (OfString (JSON_stringify (JObj payload))) /\
    map fst payload
    = payload_keys ++ (if loosely_null (get_prop parsed (str "stop")) then []
                       else [str "stop"]) /\
    obj_get payload (str "model")
    = Some (field_or parsed "model" (JStr (str "llama-3.1-8b-instant"))) /\
    obj_get payload (str "temperature")
    = Some (field_or parsed "temperature" (JNum (num_of_Z 1))) /\
    obj_get payload (str "top_p") = Some (field_or parsed "top_p" (JNum (num_of_Z 1))) /\
    obj_get payload (str "stream") = Some (JBool true) /\
    obj_get payload (str "max_completion_tokens")
    = Some (field_or parsed "max_tokens" (JNum (num_of_Z 1024))) /\
    obj_get payload (str "messages") = Some (chat_messages parsed user) /\
    obj_get payload (str "stop")
    = (if loosely_null (get_prop parsed (str "stop")) then None
       else get_prop parsed (str "stop")).
Proof.
  intros E. destruct (chat_accepted_call request env t i k E) as (parsed & user & Hacc & Hb).
  exists parsed, user. eexists. split; [exact Hacc|]. split; [exact Hb|].
  unfold FixedEndpoint.payload_of.
  destruct (get_prop parsed (str "stop")) as [[|b|n|s|l|o]|];
    repeat (split; [reflexivity|]); reflexivity.
Qed.

(** The fields are passed on as the Numbers they were read as: a decimal
    beyond the largest finite value is sent as [null], an integer beyond
    [2^53] as the nearest value binary64 holds. *)
Example big_numbers_chat_payload :
  match FixedEndpoint.fetch (chat_post big_numbers_chat) chat_env with
  | Fetch _ i _ => init_body i
  | _ => None
  end
  = Some (OfString
              (str "{" ++ quote (str "model") ++ str ":"
               ++ quote (str "llama-3.1-8b-instant")
               ++ str "," ++ quote (str "temperature") ++ str ":1,"
               ++ quote (str "top_p") ++ str ":9007199254740992,"
               ++ quote (str "stream") ++ str ":true,"
               ++ quote (str "max_completion_tokens") ++ str ":null,"
               ++ quote (str "messages") ++ str ":[{" ++ quote (str "role") ++ str ":"
               ++ quote (str "system") ++ str "," ++ quote (str "content") ++ str ":"
               ++ quote (str "You are a helpful assistant.") ++ str "},{"
               ++ quote (str "role") ++ str ":" ++ quote (str "user") ++ str ","
               ++ quote (str "content") ++ str ":" ++ quote (str "hi") ++ str "}]}")).
Proof. vm_compute. reflexivity. Qed.

Lemma chat_payload_shape_witness :
  exists payload,
    map fst payload = payload_keys ++ [str "stop"] /\
    obj_get payload (str "stop") = Some (JStr (str "END")) /\
    obj_get payload (str "stream") = Some (JBool true).
Proof.
  destruct (chat_payload_shape
              (chat_post (str "{" ++ quote (str "user") ++ str ":" ++ quote (str "hi")
                          ++ str "," ++ quote (str "stop") ++ str ":" ++ quote (str "END")
                          ++ str "," ++ quote (str "stream") ++ str ":false}"))
              chat_env
              (Absolute FixedEndpoint.groq_address)
              {| init_method := str "POST";
                 init_headers := chat_call_headers chat_env;
                 init_body :=
                   Some (OfString
                           (JSON_stringify
                              (JObj (FixedEndpoint.payload_of
                                       (JStr (str "You are a helpful assistant."))
                                       (JStr (str "hi"))
                                       (JStr (str "llama-3.1-8b-instant"))
                                       (JNum (num_of_Z 1)) (JNum (num_of_Z 1024))
                                       (JNum (num_of_Z 1))
                                       (Some (JStr (str "END"))))))) |}
              FixedEndpoint.relay eq_refl)
    as (parsed & user & payload & (Hj & _) & _ & Hk & _ & _ & _ & Hs & _ & _ & Hstop).
  exists payload.
  assert (Hp : parsed
               = JObj [ (str "user", JStr (str "hi")); (str "stop", JStr (str "END"));
                        (str "stream", JBool false) ]).
  { assert (Hq : FixedEndpoint.json_of_request
                   (chat_post (str "{" ++ quote (str "user") ++ str ":" ++ quote (str "hi")
                               ++ str "," ++ quote (str "stop") ++ str ":" ++ quote (str "END")
                               ++ str "," ++ quote (str "stream") ++ str ":false}"))
                 = Some (JObj [ (str "user", JStr (str "hi"));
                                (str "stop", JStr (str "END"));
                                (str "stream", JBool false) ])) by reflexivity.
    congruence. }
  subst parsed. split; [exact Hk|]. split; [exact Hstop | exact Hs].
Defined.

(** X19: the outbound call of the fixed-endpoint worker does not depend on
    the request's headers, path or query: it is a POST to the fixed chat
    completions address under exactly two headers, the credential as a
    bearer token and a JSON Content-Type. *)
Theorem chat_call_is_fixed (request : Request) (env : FixedEndpoint.Env)
  (t : Target) (i : RequestInit) (k : Response -> Eff Response) :
  FixedEndpoint.fetch request env = Fetch t i k ->
  t = Absolute (str "https://api.groq.com/openai/v1/chat/completions") /\
  init_method i = str "POST" /\
  init_headers i = chat_call_headers env.
Proof.
  intros E. destruct (chat_outcomes request env) as [[o Ho]|[b Hb]].
  - rewrite Ho in E. destruct o; discriminate.
  - rewrite Hb in E. injection E as <- <- _. repeat split.
Qed.

Lemma chat_call_is_fixed_witness :
  Absolute FixedEndpoint.groq_address
  = Absolute (str "https://api.groq.com/openai/v1/chat/completions") /\
  init_method hi_call = str "POST" /\
  init_headers hi_call = chat_call_headers chat_env.
Proof.
  exact (chat_call_is_fixed own_headers_chat_post chat_env
           (Absolute FixedEndpoint.groq_address) hi_call FixedEndpoint.relay eq_refl).
Defined.

(** X20: on a success with a body the fixed-endpoint worker answers with
    status 200 whatever the upstream's success status was, with the
    upstream's body, and with exactly its own six headers: none of the
    upstream's headers is passed on. *)
Theorem chat_success_headers (request : Request) (env : FixedEndpoint.Env)
  (t : Target) (i : RequestInit) (k : Response -> Eff Response)
  (groqRes : Response) (b : Body) :
  FixedEndpoint.fetch request env = Fetch t i k ->
  ok groqRes = true -> body groqRes = Some b ->
  k groqRes
  = Ret {| status := 200; headers := event_stream_headers; body := Some b |}.
Proof.
  intros E Hok Hb. rewrite (chat_continuation request env t i k E).
  unfold FixedEndpoint.relay. now rewrite Hok, Hb.
Qed.

Lemma chat_success_headers_witness :
  FixedEndpoint.relay created_answer
  = Ret {| status := 200;
           headers := event_stream_headers;
           body := Some (Stream (str "{}")) |}.
Proof.
  apply (chat_success_headers (chat_post user_hi) chat_env
           (Absolute FixedEndpoint.groq_address)
           {| init_method := str "POST";
              init_headers := chat_call_headers chat_env;
              init_body :=
                Some (OfString
                        (JSON_stringify
                           (JObj (FixedEndpoint.payload_of
                                    (JStr (str "You are a helpful assistant."))
                                    (JStr (str "hi"))
                                    (JStr (str "llama-3.1-8b-instant"))
                                    (JNum (num_of_Z 1)) (JNum (num_of_Z 1024))
                                    (JNum (num_of_Z 1)) None)))) |}
           FixedEndpoint.relay created_answer (Stream (str "{}")));
    reflexivity.
Defined.

Lemma relay_resolves_or_rejects (groqRes : Response) :
  exists o, FixedEndpoint.relay groqRes = try o.
Proof.
  unfold FixedEndpoint.relay.
  destruct (negb (ok groqRes)
            || negb (match body groqRes with Some _ => true | None => false end));
    now eexists.
Qed.

(** X21: the fixed-endpoint worker calls the upstream at most once per
    request, and when that call fails in transport the handler rejects:
    there is no retry and no error envelope for it. *)
Theorem chat_at_most_one_call (request : Request) (env : FixedEndpoint.Env)
  (net : Network) :
  (List.length (snd (run net (FixedEndpoint.fetch request env))) <= 1)%nat /\
  (forall t i, In (t, i) (snd (run net (FixedEndpoint.fetch request env))) ->
               net t i = None ->
               run net (FixedEndpoint.fetch request env) = (None, [(t, i)])).
Proof.
  destruct (chat_outcomes request env) as [[o E]|[b E]]; rewrite E.
  - destruct o; simpl; (split; [lia | now intros t i []]).
  - simpl run.
    match goal with |- context [net ?t ?i] => set (tgt := t); set (ini := i) end.
    destruct (net tgt ini) as [u|] eqn:Enet.
    + destruct (relay_resolves_or_rejects u) as [o ->].
      destruct o; simpl; (split; [lia|]);
        intros t i [[= <- <-]|[]] Hnone; congruence.
    + simpl. split; [lia|]. now intros t i [[= <- <-]|[]] _.
Qed.
